(** * rnplay-cli: a model of the command-line workflows

    The repository holds two copies of one program: the rewrite
    [src/index.js] (module [Rewrite] below) and the older
    [rnplay-cli.js] (module [Legacy]).  Both chain promises over four
    collaborators: the file system, the HTTP client, the shell and the
    terminal.  The model keeps the collaborators as an explicit
    environment of oracles, threads a store (files and the trace of
    effects) through an error monad for the sequential workflows, and
    gives [splitByConfig] a small-step semantics in which a scheduler
    decides which pending I/O operation completes next. *)

From Stdlib Require Import ZArith Lia DecimalString Ascii String.
From stdpp Require Import base tactics option list strings.

Open Scope string_scope.
Open Scope list_scope.
Open Scope stdpp_scope.

(** ** JavaScript values read from and written to JSON *)

#[local] Set Warnings "-register-all".

Module JS.

(** A parsed JSON document.  Numbers are integer literals (fractions and
    exponents are outside this model); strings are byte strings, as they
    sit in a UTF-8 file.  An object keeps its properties in the order
    [Object.keys] reports them. *)
Inductive json : Type :=
| JNull
| JBool (b : bool)
| JNum (n : Z)
| JStr (s : string)
| JArr (items : list json)
| JObj (props : list (string * json)).

(** A value that may be [undefined] ([None]). *)
Definition jsval : Type := option json.

(** The errors a promise of the program can be rejected with. *)
Inductive JsError : Type :=
| Error (message : string)
| TypeError (message : string)
| ReferenceError (message : string)
| SyntaxError (message : string).

Definition message (e : JsError) : string :=
  match e with
  | Error m | TypeError m | ReferenceError m | SyntaxError m => m
  end.

Inductive Result (A : Type) : Type :=
| Ok (a : A)
| Err (e : JsError).
Arguments Ok {A} a.
Arguments Err {A} e.

Definition dquote : ascii := "034"%char.
Definition bslash : ascii := "092"%char.

(** [quoted s] is [s] between two double quotes, nothing escaped. *)
Definition quoted (s : string) : string :=
  String dquote (s +:+ String dquote "").

Fixpoint join (sep : string) (l : list string) : string :=
  match l with
  | [] => ""
  | [x] => x
  | x :: rest => x +:+ sep +:+ join sep rest
  end.

Definition show_Z (n : Z) : string := NilZero.string_of_int (Z.to_int n).

(** ToBoolean. *)
Definition truthy (v : jsval) : bool :=
  match v with
  | None | Some JNull | Some (JBool false) | Some (JNum 0) | Some (JStr "") => false
  | Some _ => true
  end.

(** ToString, as string concatenation and template literals apply it. *)
Fixpoint to_string (v : json) : string :=
  match v with
  | JNull => "null"
  | JBool true => "true"
  | JBool false => "false"
  | JNum n => show_Z n
  | JStr s => s
  | JArr items =>
      join "," (map (fun x => match x with JNull => "" | _ => to_string x end) items)
  | JObj _ => "[object Object]"
  end.

Definition val_to_string (v : jsval) : string :=
  match v with
  | None => "undefined"
  | Some j => to_string j
  end.

Fixpoint lookup_prop (k : string) (props : list (string * json)) : jsval :=
  match props with
  | [] => None
  | (k', v) :: rest => if decide (k = k') then Some v else lookup_prop k rest
  end.

(** [o.k] for the property names this program reads ([email], [token],
    [urlToken]): reading a property of [null] throws, a primitive or an
    array has no such property. *)
Definition get_prop (o : json) (k : string) : Result jsval :=
  match o with
  | JNull => Err (TypeError ("Cannot read property '" +:+ k +:+ "' of null"))
  | JObj props => Ok (lookup_prop k props)
  | _ => Ok None
  end.

(** *** Property order

    [Object.keys] lists the array-index keys in ascending numeric order
    and then the other keys in the order they were added. *)

Definition is_digit (c : ascii) : bool :=
  (48 <=? N_of_ascii c)%N && (N_of_ascii c <=? 57)%N.

Fixpoint digits_value (s : string) (acc : N) : option N :=
  match s with
  | "" => Some acc
  | String c r =>
      if is_digit c then digits_value r (10 * acc + (N_of_ascii c - 48))%N
      else None
  end.

(** A canonical array index: decimal digits without a leading zero,
    below [2^32 - 1]. *)
Definition array_index (k : string) : option N :=
  match k with
  | "" => None
  | String c r =>
      if Ascii.eqb c "0" && negb (String.eqb r "") then None
      else match digits_value k 0 with
           | Some n => if (n <? 4294967295)%N then Some n else None
           | None => None
           end
  end.

Fixpoint replace_prop (k : string) (v : json) (props : list (string * json))
  : option (list (string * json)) :=
  match props with
  | [] => None
  | (k', v') :: rest =>
      if decide (k = k') then Some ((k, v) :: rest)
      else match replace_prop k v rest with
           | Some rest' => Some ((k', v') :: rest')
           | None => None
           end
  end.

Fixpoint insert_index (i : N) (k : string) (v : json) (props : list (string * json))
  : list (string * json) :=
  match props with
  | [] => [(k, v)]
  | (k', v') :: rest =>
      match array_index k' with
      | Some j => if (j <? i)%N then (k', v') :: insert_index i k v rest
                  else (k, v) :: props
      | None => (k, v) :: props
      end
  end.

(** [o[k] = v] on the property list of an object. *)
Definition set_prop (k : string) (v : json) (props : list (string * json))
  : list (string * json) :=
  match replace_prop k v props with
  | Some props' => props'
  | None =>
      match array_index k with
      | Some i => insert_index i k v props
      | None => props ++ [(k, v)]
      end
  end.

(** *** JSON.stringify *)

Definition hex_digit (n : N) : ascii :=
  if (n <? 10)%N then ascii_of_N (48 + n) else ascii_of_N (87 + n).

Definition escape_char (c : ascii) : string :=
  let n := N_of_ascii c in
  if Ascii.eqb c dquote then String bslash (String dquote "")
  else if Ascii.eqb c bslash then String bslash (String bslash "")
  else if (n =? 8)%N then String bslash "b"
  else if (n =? 9)%N then String bslash "t"
  else if (n =? 10)%N then String bslash "n"
  else if (n =? 12)%N then String bslash "f"
  else if (n =? 13)%N then String bslash "r"
  else if (n <? 32)%N then
    String bslash ("u00" +:+ String (hex_digit (n / 16)) (String (hex_digit (n mod 16)) ""))
  else String c "".

Fixpoint escape (s : string) : string :=
  match s with
  | "" => ""
  | String c r => escape_char c +:+ escape r
  end.

Definition quote (s : string) : string := quoted (escape s).

Fixpoint stringify (v : json) : string :=
  match v with
  | JNull => "null"
  | JBool true => "true"
  | JBool false => "false"
  | JNum n => show_Z n
  | JStr s => quote s
  | JArr items => "[" +:+ join "," (map stringify items) +:+ "]"
  | JObj props =>
      "{" +:+ join "," (map (fun kv => quote (fst kv) +:+ ":" +:+ stringify (snd kv)) props)
          +:+ "}"
  end.

(** *** JSON.parse *)

Definition is_ws (c : ascii) : bool :=
  let n := N_of_ascii c in
  (n =? 32)%N || (n =? 9)%N || (n =? 10)%N || (n =? 13)%N.

Fixpoint skip_ws (s : string) : string :=
  match s with
  | String c r => if is_ws c then skip_ws r else s
  | "" => ""
  end.

Definition hex_value (c : ascii) : option N :=
  let n := N_of_ascii c in
  if is_digit c then Some (n - 48)%N
  else if (97 <=? n)%N && (n <=? 102)%N then Some (n - 87)%N
  else if (65 <=? n)%N && (n <=? 70)%N then Some (n - 55)%N
  else None.

Definition hex4 (a b c d : ascii) : option N :=
  x1 ← hex_value a; x2 ← hex_value b; x3 ← hex_value c; x4 ← hex_value d;
  Some (((x1 * 16 + x2) * 16 + x3) * 16 + x4)%N.

(** The UTF-8 bytes of a code point of the basic plane.  An escape that
    names a surrogate is outside this model ([None]). *)
Definition utf8 (cp : N) : option string :=
  if (cp <? 128)%N then Some (String (ascii_of_N cp) "")
  else if (cp <? 2048)%N then
    Some (String (ascii_of_N (192 + cp / 64)) (String (ascii_of_N (128 + cp mod 64)) ""))
  else if (55296 <=? cp)%N && (cp <=? 57343)%N then None
  else
    Some (String (ascii_of_N (224 + cp / 4096))
            (String (ascii_of_N (128 + (cp / 64) mod 64))
               (String (ascii_of_N (128 + cp mod 64)) ""))).

Definition unescape (c : ascii) : option ascii :=
  if Ascii.eqb c dquote then Some dquote
  else if Ascii.eqb c bslash then Some bslash
  else if Ascii.eqb c "/" then Some "/"%char
  else if Ascii.eqb c "b" then Some (ascii_of_N 8)
  else if Ascii.eqb c "f" then Some (ascii_of_N 12)
  else if Ascii.eqb c "n" then Some (ascii_of_N 10)
  else if Ascii.eqb c "r" then Some (ascii_of_N 13)
  else if Ascii.eqb c "t" then Some (ascii_of_N 9)
  else None.

(** The characters of a string literal after its opening quote, and the
    input left after its closing quote. *)
Fixpoint parse_chars (s : string) : option (string * string) :=
  match s with
  | "" => None
  | String c r =>
      if Ascii.eqb c dquote then Some ("", r)
      else if Ascii.eqb c bslash then
        match r with
        | String "u" (String h1 (String h2 (String h3 (String h4 r')))) =>
            cp ← hex4 h1 h2 h3 h4;
            bytes ← utf8 cp;
            '(str, rest) ← parse_chars r';
            Some (bytes +:+ str, rest)
        | String e r' =>
            ch ← unescape e;
            '(str, rest) ← parse_chars r';
            Some (String ch str, rest)
        | "" => None
        end
      else if (N_of_ascii c <? 32)%N then None
      else '(str, rest) ← parse_chars r; Some (String c str, rest)
  end.

Fixpoint take_digits (s : string) : string * string :=
  match s with
  | String c r =>
      if is_digit c then let '(d, rest) := take_digits r in (String c d, rest)
      else ("", s)
  | "" => ("", "")
  end.

Definition parse_nat (s : string) : option (N * string) :=
  let '(d, rest) := take_digits s in
  match d with
  | "" => None
  | String c d' =>
      if Ascii.eqb c "0" && negb (String.eqb d' "") then None
      else
        match rest with
        | String "." _ | String "e" _ | String "E" _ => None
        | _ => n ← digits_value d 0; Some (n, rest)
        end
  end.

Definition parse_number (s : string) : option (json * string) :=
  match s with
  | String "-" r => '(n, rest) ← parse_nat r; Some (JNum (- Z.of_N n), rest)
  | _ => '(n, rest) ← parse_nat s; Some (JNum (Z.of_N n), rest)
  end.

Fixpoint strip_prefix (p s : string) : option string :=
  match p, s with
  | "", _ => Some s
  | String a p', String b s' => if Ascii.eqb a b then strip_prefix p' s' else None
  | _, _ => None
  end.

Fixpoint parse_value (fuel : nat) (s : string) : option (json * string) :=
  match fuel with
  | O => None
  | S fuel' =>
      match skip_ws s with
      | String "{" r =>
          match skip_ws r with
          | String "}" r' => Some (JObj [], r')
          | _ => '(props, rest) ← parse_members fuel' r []; Some (JObj props, rest)
          end
      | String "[" r =>
          match skip_ws r with
          | String "]" r' => Some (JArr [], r')
          | _ => '(items, rest) ← parse_items fuel' r; Some (JArr items, rest)
          end
      | String "034" r => '(str, rest) ← parse_chars r; Some (JStr str, rest)
      | String "t" _ as s' => rest ← strip_prefix "true" s'; Some (JBool true, rest)
      | String "f" _ as s' => rest ← strip_prefix "false" s'; Some (JBool false, rest)
      | String "n" _ as s' => rest ← strip_prefix "null" s'; Some (JNull, rest)
      | s' => parse_number s'
      end
  end
with parse_items (fuel : nat) (s : string) : option (list json * string) :=
  match fuel with
  | O => None
  | S fuel' =>
      '(v, rest) ← parse_value fuel' s;
      match skip_ws rest with
      | String "," r => '(vs, rest') ← parse_items fuel' r; Some (v :: vs, rest')
      | String "]" r => Some ([v], r)
      | _ => None
      end
  end
with parse_members (fuel : nat) (s : string) (acc : list (string * json))
  : option (list (string * json) * string) :=
  match fuel with
  | O => None
  | S fuel' =>
      match skip_ws s with
      | String "034" r =>
          '(k, rest) ← parse_chars r;
          match skip_ws rest with
          | String ":" r' =>
              '(v, rest') ← parse_value fuel' r';
              let acc' := set_prop k v acc in
              match skip_ws rest' with
              | String "," r'' => parse_members fuel' r'' acc'
              | String "}" r'' => Some (acc', r'')
              | _ => None
              end
          | _ => None
          end
      | _ => None
      end
  end.

(** [JSON.parse]: one value, white space around it, nothing else. *)
Definition parse (s : string) : option json :=
  '(v, rest) ← parse_value (2 * String.length s + 2) s;
  match skip_ws rest with
  | "" => Some v
  | _ => None
  end.

End JS.

(** ** The collaborators: file system, HTTP client, shell, terminal *)

Module IO.
Import JS.

(** The two configuration files: [~/.rnplay], and the per-project file
    beside the manifest. *)
Inductive File : Type := GlobalConfigFile | LocalConfigFile.

#[global] Instance File_eq_dec : EqDecision File.
Proof. solve_decision. Defined.

(** The status helpers of the [cli] package. *)
Inductive Level : Type := LInfo | LOk | LError | LFatal.

Record Request : Type := mkRequest {
  url : string;
  headers : list (string * jsval);
  body : string
}.

(** What the program does to the outside world, in the order it does it. *)
Inductive Event : Type :=
| Log (lvl : Level) (msg : string)
| Http (req : Request)
| Shell (cmd : string)
| Browser (address : string)
| FileWrite (f : File) (contents : string)
| Exit.

(** [package.json] of the working directory, as far as the program
    reads it: the package name and the [rnplay] block, a mapping from
    project name to source directory listed in key order. *)
Record Package : Type := mkPackage {
  name : option string;
  rnplay : option (list (string * string))
}.

(** The environment: everything the collaborators answer.  It does not
    change during a run. *)
Record Env : Type := mkEnv {
  (** [process.env.RNPLAY_ENV] *)
  RNPLAY_ENV : option string;
  (** [os.tmpdir()] *)
  tmpdir : string;
  (** [require(cwd + '/package.json')], or the error it throws *)
  package_json : Result Package;
  (** the [url_token] of the response to a request, or the rejection *)
  http_response : Request -> Result string;
  (** the error a shell command ends with, if it fails *)
  shell_exit : string -> option JsError;
  (** the error writing a file ends with, if it fails *)
  write_error : File -> option JsError;
  (** what the user types at the three prompts *)
  stdin_token : Result string;
  stdin_email : Result string;
  stdin_name : Result string;
  (** the value a call of [cli.info] returns; the helper of the [cli]
      package has no return statement, which gives [undefined] ([None]) *)
  cli_info_result : jsval
}.

(** The store: the two files and the trace so far. *)
Record Store : Type := mkStore {
  global_file : option string;
  local_file : option string;
  trace : list Event
}.

Definition read (f : File) (st : Store) : option string :=
  match f with
  | GlobalConfigFile => global_file st
  | LocalConfigFile => local_file st
  end.

Definition write (f : File) (s : string) (st : Store) : Store :=
  match f with
  | GlobalConfigFile => mkStore (Some s) (local_file st) (trace st)
  | LocalConfigFile => mkStore (global_file st) (Some s) (trace st)
  end.

Definition record (e : Event) (st : Store) : Store :=
  mkStore (global_file st) (local_file st) (trace st ++ [e]).

(** A promise chain that runs to its end without interleaving: a
    computation over the store that fulfils with a value or rejects. *)
Definition M (A : Type) : Type := Store -> Result A * Store.

Definition ret {A} (a : A) : M A := fun st => (Ok a, st).
Definition throw {A} (e : JsError) : M A := fun st => (Err e, st).

Definition bind {A B} (m : M A) (k : A -> M B) : M B :=
  fun st =>
    match m st with
    | (Ok a, st') => k a st'
    | (Err e, st') => (Err e, st')
    end.

(** [.catch(handler)] *)
Definition catch {A} (m : M A) (handler : JsError -> M A) : M A :=
  fun st =>
    match m st with
    | (Ok a, st') => (Ok a, st')
    | (Err e, st') => handler e st'
    end.

Definition lift {A} (r : Result A) : M A := fun st => (r, st).

Definition emit (e : Event) : M unit := fun st => (Ok tt, record e st).

End IO.

Import JS IO.

Declare Scope promise_scope.
Delimit Scope promise_scope with promise.
Notation "x <- m ;; k" := (bind m (fun x => k))
  (at level 100, m at next level, right associativity) : promise_scope.
Notation "m ;; k" := (bind m (fun _ => k))
  (at level 100, right associativity) : promise_scope.
Open Scope promise_scope.

Definition newline : string := String "010"%char "".

(** ** Calls shared by the two programs *)

Section Collaborators.
Variable env : Env.

Definition cli_info (msg : string) : M unit := emit (Log LInfo msg).
Definition cli_ok (msg : string) : M unit := emit (Log LOk msg).
Definition cli_error (msg : string) : M unit := emit (Log LError msg).

(** [opener(url)] *)
Definition opener (address : string) : M unit := emit (Browser address).

(** [Promise.promisify(fs.readFile)(path)] *)
Definition readFileAsync (f : File) : M string :=
  fun st =>
    match read f st with
    | Some contents => (Ok contents, st)
    | None => (Err (Error "ENOENT: no such file or directory"), st)
    end.

(** [Promise.promisify(fs.writeFile)(path, data)] *)
Definition writeFileAsync (f : File) (data : string) : M unit :=
  fun st =>
    match write_error env f with
    | Some e => (Err e, st)
    | None => (Ok tt, record (FileWrite f data) (write f data st))
    end.

(** [Promise.promisify(exec)(cmd)]: fulfils when the command has ended
    with status zero. *)
Definition execAsync (cmd : string) : M unit :=
  emit (Shell cmd);;
  match shell_exit env cmd with
  | Some e => throw e
  | None => ret tt
  end.

(** [exec(cmd)] without a callback: the command is started and the
    child process object returned; how the command ends is not seen. *)
Definition exec (cmd : string) : M unit := emit (Shell cmd).

Definition JSON_parse (contents : string) : M json :=
  match parse contents with
  | Some v => ret v
  | None => throw (SyntaxError "Unexpected token in JSON")
  end.

Definition ConfigMissingOrCorrupt : JsError :=
  Error "Missing or corrupt config file, please run `rnplay -a`".

Definition InvalidConfig : JsError :=
  Error "Invalid config, please run `rnplay -a` first".

(** rnplay-cli.js, [readConfig], for the file at [f]. *)
Definition read_config_file (f : File) : M json :=
  catch (contents <- readFileAsync f;; JSON_parse contents)
        (fun _ => throw ConfigMissingOrCorrupt).

(** rnplay-cli.js, [saveConfig], for the file at [f]. *)
Definition save_config_file (f : File) (configData : json) : M unit :=
  writeFileAsync f (stringify configData +:+ newline).

(** utils/api.js, [postCreateRepo], with the endpoint it posts to: the
    request that the chain of [post], [set] and [send] builds ... *)
Definition create_repo_request (endpoint : string) (name config : json)
  : Result Request :=
  match get_prop config "email" with
  | Err e => Err e
  | Ok email =>
      match get_prop config "token" with
      | Err e => Err e
      | Ok token =>
          Ok (mkRequest endpoint
                [("Content-Type", Some (JStr "application/json"));
                 ("X-User-Email", email);
                 ("X-User-Token", token)]
                (stringify
                   (JObj [("app", JObj [("name", name); ("uses_git", JNum 1)])])))
      end
  end.

(** ... its sending ... *)
Definition send_create_repo (endpoint : string) (name config : json) : M Request :=
  cli_info "Setting up new git repo";;
  req <- lift (create_repo_request endpoint name config);;
  emit (Http req);;
  ret req.

(** ... and the promise of the response, read down to [body.url_token]. *)
Definition post_create_repo (endpoint : string) (name config : json) : M string :=
  req <- send_create_repo endpoint name config;;
  lift (http_response env req).

(** [!conf.email || !conf.token] *)
Definition lacks_credentials (conf : json) : Result bool :=
  match get_prop conf "email" with
  | Err e => Err e
  | Ok email =>
      if negb (truthy email) then Ok true
      else match get_prop conf "token" with
           | Err e => Err e
           | Ok token => Ok (negb (truthy token))
           end
  end.

(** [action(cli).catch(...).finally(() => process.exit())] of [cli.main]. *)
Definition main (action : M unit) : M unit :=
  catch action
    (fun e =>
       cli_error ("Ooops, there has been an error: " +:+ newline +:+ message e);;
       cli_info "If you are sure that you did nothing wrong, please file an issue at the rnplay-cli repo!");;
  emit Exit.

(** Modelled from the spec: utils/input.js is not among the sources.
    The project name is "the manifest-declared package name" when
    there is one; the three prompts read what the user types. *)
Definition maybeUsePackageName : M jsval :=
  match package_json env with
  | Ok pkg => ret (JStr <$> name pkg)
  | Err _ => ret None
  end.

Definition readRepoNameFromCLI : M string := lift (stdin_name env).
Definition readTokenFromCLI : M string := lift (stdin_token env).
Definition readEmailFromCLI : M string := lift (stdin_email env).

(** [.then((name) => name ? name : readRepoNameFromCLI())] *)
Definition resolve_name (name : jsval) : M json :=
  match name with
  | Some n =>
      if truthy name then ret n
      else (typed <- readRepoNameFromCLI;; ret (JStr typed))
  | None => typed <- readRepoNameFromCLI;; ret (JStr typed)
  end.

End Collaborators.

(** ** rnplay-cli.js, with its utils/api.js *)

Module Legacy.
Section Program.
Variable env : Env.

Definition CONFIG_FILE_PATH : File := GlobalConfigFile.
Definition RN_PLAY_APP_URL : string := "https://rnplay.org/apps/".
Definition APP_ENDPOINT : string := "https://staging.rnplay.org/apps.json".

Definition postCreateRepo : json -> json -> M string :=
  post_create_repo env APP_ENDPOINT.

Definition readConfig : M json := read_config_file CONFIG_FILE_PATH.

Definition saveConfig (configData : json) : M unit :=
  save_config_file env CONFIG_FILE_PATH configData.

Definition createConfig : M unit :=
  token <- readTokenFromCLI env;;
  email <- readEmailFromCLI env;;
  saveConfig (JObj [("token", JStr token); ("email", JStr email)]);;
  cli_ok "Saved config to ~/.rnplay".

(** [config.urlToken = urlToken], in strict mode.  Only the object case
    is reached: a configuration that passed the credentials test has
    properties. *)
Definition set_urlToken (config : json) (urlToken : string) : Result json :=
  match config with
  | JObj props => Ok (JObj (set_prop "urlToken" (JStr urlToken) props))
  | JArr _ => Ok config
  | _ => Err (TypeError "Cannot assign to property 'urlToken'")
  end.

(** [var url = 'https://' + config.token + ':@git.rnplay.org:jsierles/' + urlToken + '.git'] *)
Definition remote_url (config : json) (urlToken : string) : Result string :=
  match get_prop config "token" with
  | Err e => Err e
  | Ok token =>
      Ok ("https://" +:+ val_to_string token +:+ ":@git.rnplay.org:jsierles/"
            +:+ urlToken +:+ ".git")
  end.

Definition createGitRepo : M unit :=
  conf <- readConfig;;
  bad <- lift (lacks_credentials conf);;
  (if bad : bool then throw InvalidConfig else ret tt);;
  let config := conf in
  name <- maybeUsePackageName env;;
  name <- resolve_name env name;;
  urlToken <- postCreateRepo name config;;
  config <- lift (set_urlToken config urlToken);;
  saveConfig config;;
  cli_info "Adding git remote";;
  let remoteName := "rnplay" in
  url <- lift (remote_url config urlToken);;
  let cmd := "git remote add " +:+ remoteName +:+ " " +:+ url in
  execAsync env cmd;;
  cli_ok ("Added remote with name `" +:+ remoteName +:+ " and url: `" +:+ url +:+ "`");;
  cli_ok "All done! Use `git push rnplay master` to push your application.";;
  cli_ok "You can use  `rnplay-cli --open` to open this application on rnplay.org".

Definition openAppInBrowser : M unit :=
  conf <- readConfig;;
  token <- lift (get_prop conf "urlToken");;
  if negb (truthy token) then
    cli_error "You have to create an application using `rnplay-cli --create` first"
  else
    let url := RN_PLAY_APP_URL +:+ val_to_string token in
    opener url.

End Program.
End Legacy.

(** ** src/index.js, with utils/processRNPlayConfig.js and utils/getPackageConfig.js *)

Module Rewrite.
Section Program.
Variable env : Env.

(** [RNPLAY_ENV ? `${RNPLAY_ENV}.` : ''] *)
Definition PREFIX : string :=
  match RNPLAY_ENV env with
  | Some (String _ _ as v) => v +:+ "."
  | _ => ""
  end.

Definition RNPLAY_APP_URL : string := "https://" +:+ PREFIX +:+ "rnplay.org/apps/".

(** Modelled from the spec: the utils/api.js whose default export is
    [createApi] is not among the sources.  [createApi(PREFIX)] gives the
    client of section 6: "POST {baseUrl}/apps.json" with the headers and
    the body of [postCreateRepo], the host prefixed "for all API and web
    URLs". *)
Definition APP_ENDPOINT : string := "https://" +:+ PREFIX +:+ "rnplay.org/apps.json".

Definition postCreateRepo : json -> json -> M string :=
  post_create_repo env APP_ENDPOINT.

(** Modelled from the spec: utils/config.js is not among the sources.
    Section 4.1: [readGlobalConfig] "fails with ConfigMissingOrCorrupt if
    the file is absent or not valid JSON", [saveGlobalConfig] "serializes
    to JSON, overwrites", and the local pair has the "same contract,
    scoped to the working directory". *)
Definition readConfig : M json := read_config_file GlobalConfigFile.

Definition saveConfig (configData : json) : M unit :=
  save_config_file env GlobalConfigFile configData.

Definition readLocalConfig : M json := read_config_file LocalConfigFile.

Definition saveLocalConfig (configData : json) : M unit :=
  save_config_file env LocalConfigFile configData.

Definition createConfig : M unit :=
  token <- readTokenFromCLI env;;
  email <- readEmailFromCLI env;;
  saveConfig (JObj [("token", JStr token); ("email", JStr email)]);;
  cli_ok "Saved config to ~/.rnplay".

Definition checkConfig (conf : json) : M json :=
  bad <- lift (lacks_credentials conf);;
  if bad : bool then throw InvalidConfig else ret conf.

Definition makeURLToken (name config : json) : M string :=
  postCreateRepo name config.

Definition getConfig : M json :=
  conf <- readConfig;;
  checkConfig conf.

(** [const url = `https://${config.token}:@git.rnplay.org/${urlToken}.git`] *)
Definition remote_url (urlToken : string) (config : json) : Result string :=
  match get_prop config "token" with
  | Err e => Err e
  | Ok token =>
      Ok ("https://" +:+ val_to_string token +:+ ":@git.rnplay.org/" +:+ urlToken +:+ ".git")
  end.

Definition formatCommand (urlToken : string) (config : json) : Result string :=
  let remoteName := "rnplay" in
  match remote_url urlToken config with
  | Err e => Err e
  | Ok url => Ok ("git remote add " +:+ remoteName +:+ " " +:+ url)
  end.

Definition getAddRemoteCommand (name : json) : M string :=
  config <- getConfig;;
  token <- makeURLToken name config;;
  lift (formatCommand token config).

(** Reading an identifier that no enclosing scope declares throws.
    [remoteName] and [url] are constants of [formatCommand]; the module
    declares neither, and the callbacks of [createGitRepo] bind
    [urlToken] and [cmd] only. *)
Definition undeclared (identifier : string) : M string :=
  throw (ReferenceError (identifier +:+ " is not defined")).

Definition createGitRepo : M unit :=
  config <- getConfig;;
  name <- maybeUsePackageName env;;
  name <- resolve_name env name;;
  urlToken <- makeURLToken name config;;
  saveLocalConfig (JObj [("urlToken", JStr urlToken)]);;
  cli_info "Adding git remote";;
  cmd <- lift (formatCommand urlToken config);;
  execAsync env cmd;;
  remoteName <- undeclared "remoteName";;
  url <- undeclared "url";;
  cli_ok ("Added remote with name `" +:+ remoteName +:+ "` and url: `" +:+ url +:+ "`");;
  cli_ok "All done! Use `git push rnplay master` to push your application.";;
  cli_ok "You can use `rnplay --open` to open this application on rnplay.org".

Definition openAppInBrowser : M unit :=
  conf <- readLocalConfig;;
  urlToken <- lift (get_prop conf "urlToken");;
  if negb (truthy urlToken) then
    cli_error "You have to create an application using `rnplay --create` first"
  else
    let url := RNPLAY_APP_URL +:+ val_to_string urlToken in
    opener url.

(** *** The split workflow

    [splitByConfig] starts one chain of promises per entry of the
    [rnplay] block and returns a promise of its own.  Each chain waits
    three times: for the copy to end, for the configuration file to be
    read, for the response of the service.  A step of the model
    completes one pending operation of one chain and runs the callbacks
    chained on it up to the next wait. *)

(** [path.join(dir, name)]; the normalisation of dot segments and of
    doubled separators is not modelled. *)
Definition path_join (dir name : string) : string := dir +:+ "/" +:+ name.

Inductive Branch : Type :=
| Copying                                   (* [cp -r] is running *)
| ReadingConfig                             (* the read of [~/.rnplay] is pending *)
| Posting (config : json) (req : Request)   (* the response is pending *)
| Done                                      (* fulfilled, the [.done] callback has run *)
| Failed (e : JsError).                     (* rejected, [.done] has rethrown [e] *)

Inductive Promise : Type :=
| Pending
| Resolved
| Rejected (e : JsError).

Record Split : Type := mkSplit {
  config : list (string * string);
  branches : list Branch;
  promise : Promise;
  store : Store
}.

(** What the call of [splitByConfig] leaves behind: chains in flight, or
    a process that [cli.fatal] has ended. *)
Inductive Started : Type :=
| Running (s : Split)
| Terminated (st : Store).

(** utils/getPackageConfig.js *)
Definition getPackageConfig : Result Package := package_json env.

(** utils/processRNPlayConfig.js; [Ok None] stands for the call of
    [cli.fatal], which prints and ends the process. *)
Definition processRNPlayConfig : Result (option (list (string * string))) :=
  match getPackageConfig with
  | Err e => Err e
  | Ok pkg => Ok (rnplay pkg)
  end.

(** [Object.keys(config)] *)
Definition folders (config : list (string * string)) : list string :=
  map fst config.

(** [`${config[project]}`] *)
Fixpoint source (config : list (string * string)) (project : string) : string :=
  match config with
  | [] => "undefined"
  | (k, v) :: rest => if decide (project = k) then v else source rest project
  end.

Definition target (project : string) : string := path_join (tmpdir env) project.

Definition copy_command (config : list (string * string)) (project : string) : string :=
  "cp -r " +:+ source config project +:+ " " +:+ target project.

Definition init_command (project cmd : string) : string :=
  "cd " +:+ target project +:+ " && git init && " +:+ cmd.

(** The body of [forEach] for one project, up to its first wait. *)
Definition start_branch (config : list (string * string)) (project : string)
  : M unit :=
  cli_info ("Adding git remote for " +:+ project);;
  emit (Shell (copy_command config project)).

Fixpoint forEach (projects : list string) (body : string -> M unit) (st : Store)
  : Store :=
  match projects with
  | [] => st
  | project :: rest => forEach rest body (snd (body project st))
  end.

Definition splitByConfig (st : Store) : Started :=
  match processRNPlayConfig with
  | Err e => Running (mkSplit [] [] (Rejected e) st)
  | Ok None =>
      Terminated
        (record Exit
           (record
              (Log LFatal
                 "No rnplay config found. Make sure you have rnplay config in your package.json")
              st))
  | Ok (Some config) =>
      Running
        (mkSplit config (map (fun _ => Copying) (folders config)) Pending
           (forEach (folders config) (start_branch config) st))
  end.

Definition set_branch (i : nat) (b : Branch) (st : Store) (s : Split) : Split :=
  mkSplit (config s) (<[i := b]> (branches s)) (promise s) st.

(** [resolve()] *)
Definition resolve (s : Split) : Split :=
  match promise s with
  | Pending => mkSplit (config s) (branches s) Resolved (store s)
  | _ => s
  end.

Definition info (msg : string) (s : Split) : Split :=
  mkSplit (config s) (branches s) (promise s) (record (Log LInfo msg) (store s)).

(** The callback handed to [.done]:
    [index === folders.length - 1 ? cli.info(...) && resolve() : cli.info(...)];
    the argument of the second [cli.info] is a string minus one. *)
Definition on_done (index : nat) (project : string) (s : Split) : Split :=
  if decide (index = length (folders (config s)) - 1) then
    let s' := info ("Done setup for " +:+ target project) s in
    if truthy (cli_info_result env) then resolve s' else s'
  else info "NaN" s.

(** The stages of [getAddRemoteCommand(project)] between two waits. *)
Definition request_stage (project : string) : M (json * Request) :=
  c <- getConfig;;
  req <- send_create_repo APP_ENDPOINT (JStr project) c;;
  ret (c, req).

Definition command_stage (project token : string) (c : json) : M unit :=
  cmd <- lift (formatCommand token c);;
  exec (init_command project cmd).

(** The promise [.done] is called on, for one project, run from the
    copy to the start of the git command without interleaving:
    [execAsync(`cp -r ...`).then(() =>
       getAddRemoteCommand(project).then((cmd) => exec(`cd ... && ${cmd}`)))]. *)
Definition chain (config : list (string * string)) (project : string) : M unit :=
  execAsync env (copy_command config project);;
  cmd <- getAddRemoteCommand (JStr project);;
  exec (init_command project cmd).

(** One pending operation of chain [i] completes. *)
Definition complete (i : nat) (s : Split) : Split :=
  match folders (config s) !! i, branches s !! i with
  | Some project, Some Copying =>
      match shell_exit env (copy_command (config s) project) with
      | Some e => set_branch i (Failed e) (store s) s
      | None => set_branch i ReadingConfig (store s) s
      end
  | Some project, Some ReadingConfig =>
      match request_stage project (store s) with
      | (Ok (c, req), st) => set_branch i (Posting c req) st s
      | (Err e, st) => set_branch i (Failed e) st s
      end
  | Some project, Some (Posting c req) =>
      match http_response env req with
      | Err e => set_branch i (Failed e) (store s) s
      | Ok token =>
          match command_stage project token c (store s) with
          | (Ok _, st) => on_done i project (set_branch i Done st s)
          | (Err e, st) => set_branch i (Failed e) st s
          end
      end
  | _, _ => s
  end.

(** A schedule names, step by step, the chain whose operation completes. *)
Fixpoint run (schedule : list nat) (s : Split) : Split :=
  match schedule with
  | [] => s
  | i :: rest => run rest (complete i s)
  end.

End Program.
End Rewrite.

(** ** The entry point of both programs *)

(** [options[key] && key] *)
Definition and_key (options : list (string * json)) (key : string) : jsval :=
  if truthy (lookup_prop key options) then Some (JStr key) else lookup_prop key options.

(** [getFirstTrueOption], the same in both programs:
    [Object.keys(options).reduce((prev, key) => prev ? prev : options[key] && key, null)] *)
Definition getFirstTrueOption (options : list (string * json)) : jsval :=
  fold_left (fun prev key => if truthy prev then prev else and_key options key)
    (map fst options) (Some JNull).

(** The long names handed to [cli.parse] (the older program does not
    declare [split]).  The options object that [cli.main] passes to its
    callback has long names for keys and no other key, in the order the
    [cli] package added them. *)
Inductive Flag : Type := authenticate | create | open | split.

#[global] Instance Flag_eq_dec : EqDecision Flag.
Proof. solve_decision. Defined.

Definition long_name (f : Flag) : string :=
  match f with
  | authenticate => "authenticate"
  | create => "create"
  | open => "open"
  | split => "split"
  end.

Definition parsed (options : list (Flag * json)) : list (string * json) :=
  map (fun fv => (long_name (fst fv), snd fv)) options.

(** A function of an action map: a promise chain, or [splitByConfig]
    with its chains in flight. *)
Inductive Workflow : Type :=
| Sequential (action : M unit)
| Concurrent (action : Store -> Rewrite.Started).

(** What the callback of [cli.main] leaves behind. *)
Inductive Invocation : Type :=
| Usage (st : Store)                       (* [cli.getUsage()], nothing else *)
| Ran (outcome : Result unit * Store)      (* the action, [.catch] and [.finally] have run *)
| Splitting (s : Rewrite.Started).         (* [.catch] and [.finally] wait for the promise *)

Section Entry.
Variable env : Env.

(** rnplay-cli.js, [actionMap[key]], for the key of an option *)
Definition actionMap (key : string) : option Workflow :=
  if decide (key = "authenticate") then Some (Sequential (Legacy.createConfig env))
  else if decide (key = "create") then Some (Sequential (Legacy.createGitRepo env))
  else if decide (key = "open") then Some (Sequential Legacy.openAppInBrowser)
  else None.

(** src/index.js, [ACTION_MAP[key]], for the key of an option *)
Definition ACTION_MAP (key : string) : option Workflow :=
  if decide (key = "authenticate") then Some (Sequential (Rewrite.createConfig env))
  else if decide (key = "create") then Some (Sequential (Rewrite.createGitRepo env))
  else if decide (key = "open") then Some (Sequential (Rewrite.openAppInBrowser env))
  else if decide (key = "split") then Some (Concurrent (Rewrite.splitByConfig env))
  else None.

(** The callback of [cli.main], for an action map:
    [const action = ACTION_MAP[getFirstTrueOption(options)];
     if (!action) { cli.getUsage(); return; }
     action(cli).catch(...).finally(() => process.exit())]. *)
Definition cli_main (map : string -> option Workflow) (options : list (Flag * json))
    (st : Store) : Invocation :=
  match map (val_to_string (getFirstTrueOption (parsed options))) with
  | None => Usage st
  | Some (Sequential action) => Ran (main action st)
  | Some (Concurrent action) => Splitting (action st)
  end.

End Entry.

(** ** Observations, and what the statements below are phrased with *)

Import Rewrite.

Definition requests (t : list Event) : list Request :=
  omap (fun e => match e with Http req => Some req | _ => None end) t.

Definition commands (t : list Event) : list string :=
  omap (fun e => match e with Shell cmd => Some cmd | _ => None end) t.

Definition opened (t : list Event) : list string :=
  omap (fun e => match e with Browser address => Some address | _ => None end) t.

Definition reports (t : list Event) : list string :=
  omap (fun e => match e with Log LOk msg => Some msg | _ => None end) t.

(** [sub] occurs in [s]. *)
Definition contains (sub s : string) : Prop :=
  exists pre post, s = pre +:+ sub +:+ post.

(** The shape the specification gives the git remote URL. *)
Definition git_url_shape (token baseHost urlToken : string) : string :=
  "https://" +:+ token +:+ ":@git." +:+ baseHost +:+ "/" +:+ urlToken +:+ ".git".

(** The host of the service, as the web URLs of both programs name it. *)
Definition baseHost : string := "rnplay.org".

(** A service URL as C7 expects it: the environment name and a dot
    before the host when the variable is set, nothing otherwise. *)
Definition prefixed (environment : option string) (rest : string) : string :=
  "https://"
    +:+ match environment with Some v => v +:+ "." | None => "" end
    +:+ rest.

Definition create_first : string :=
  "You have to create an application using `rnplay --create` first".

(** The request [postCreateRepo] sends for the name [n]. *)
Definition create_request (env : Env) (n : string) (email token : jsval) : Request :=
  mkRequest (APP_ENDPOINT env)
    [("Content-Type", Some (JStr "application/json"));
     ("X-User-Email", email); ("X-User-Token", token)]
    (stringify (JObj [("app", JObj [("name", JStr n); ("uses_git", JNum 1)])])).

(** The local configuration file [saveLocalConfig({ urlToken })] writes. *)
Definition local_config (urlToken : string) : string :=
  stringify (JObj [("urlToken", JStr urlToken)]) +:+ newline.

Definition add_remote (token : jsval) (urlToken : string) : string :=
  "git remote add rnplay " +:+ git_url_shape (val_to_string token) baseHost urlToken.

(** [quote s] followed by [rest]. *)
Definition quoted_then (s rest : string) : string :=
  String dquote (escape s +:+ String dquote rest).

(** What [parse_members] goes on with once the value of a member is parsed. *)
Definition value_then (fuel : nat) (k : string) (acc : list (string * json))
  : json * string -> option (list (string * json) * string) :=
  fun '(v, rest) =>
    let acc' := set_prop k v acc in
    match skip_ws rest with
    | String "," r => parse_members fuel r acc'
    | String "}" r => Some (acc', r)
    | _ => None
    end.

(** The request, the command and the success lines of the older program. *)
Definition legacy_request (n : string) (email token : jsval) : Request :=
  mkRequest Legacy.APP_ENDPOINT
    [("Content-Type", Some (JStr "application/json"));
     ("X-User-Email", email); ("X-User-Token", token)]
    (stringify (JObj [("app", JObj [("name", JStr n); ("uses_git", JNum 1)])])).

Definition legacy_add_remote (token : jsval) (urlToken : string) : string :=
  "git remote add rnplay "
    +:+ git_url_shape (val_to_string token) "rnplay.org:jsierles" urlToken.

Definition legacy_reports (token : jsval) (urlToken : string) : list string :=
  ["Added remote with name `rnplay and url: `"
     +:+ git_url_shape (val_to_string token) "rnplay.org:jsierles" urlToken +:+ "`";
   "All done! Use `git push rnplay master` to push your application.";
   "You can use  `rnplay-cli --open` to open this application on rnplay.org"].

(** What [getConfig] yields, as a function of the contents of [~/.rnplay]. *)
Definition loaded (contents : option string) : Result json :=
  match contents with
  | None => Err ConfigMissingOrCorrupt
  | Some text =>
      match parse text with
      | None => Err ConfigMissingOrCorrupt
      | Some conf =>
          match lacks_credentials conf with
          | Err e => Err e
          | Ok true => Err InvalidConfig
          | Ok false => Ok conf
          end
      end
  end.

(** What [openAppInBrowser] does, as a function of the contents of the
    local configuration file: the rejection, or its one event. *)
Definition opening (env : Env) (contents : option string) : Result Event :=
  match contents with
  | None => Err ConfigMissingOrCorrupt
  | Some text =>
      match parse text with
      | None => Err ConfigMissingOrCorrupt
      | Some conf =>
          match get_prop conf "urlToken" with
          | Err e => Err e
          | Ok urlToken =>
              Ok (if truthy urlToken
                  then Browser (RNPLAY_APP_URL env +:+ val_to_string urlToken)
                  else Log LError create_first)
          end
      end
  end.

(** The index of the last entry in key order, [folders.length - 1]. *)
Definition last_index (s : Split) : nat := length (config s) - 1.

(** The events of [forEach], before any chain moves on. *)
Definition started (env : Env) (cfg : list (string * string)) (projects : list string)
  : list Event :=
  flat_map (fun project =>
              [Log LInfo ("Adding git remote for " +:+ project);
               Shell (copy_command env cfg project)]) projects.

(** The promise agrees with the chain of the last entry. *)
Definition settled_right (env : Env) (s : Split) : Prop :=
  length (branches s) = length (config s) /\
  match promise s with
  | Pending => truthy (cli_info_result env) = true -> branches s !! last_index s <> Some Done
  | Resolved => branches s !! last_index s = Some Done
  | Rejected _ => False
  end.

(** The first stage of a chain after the copy, as a function of the
    contents of [~/.rnplay]. *)
Definition requested (env : Env) (project : string) (contents : option string)
  : Result (json * Request) :=
  match loaded contents with
  | Err e => Err e
  | Ok c =>
      match create_repo_request (APP_ENDPOINT env) (JStr project) c with
      | Err e => Err e
      | Ok req => Ok (c, req)
      end
  end.

(** The outcome of a chain, as a function of the contents of
    [~/.rnplay]: the copy, the configuration, the request, the response
    and the command line can each reject it; the end of the git command
    cannot. *)
Definition chain_result (env : Env) (contents : option string)
    (cfg : list (string * string)) (project : string) : Result unit :=
  match shell_exit env (copy_command env cfg project) with
  | Some e => Err e
  | None =>
      match requested env project contents with
      | Err e => Err e
      | Ok (c, req) =>
          match http_response env req with
          | Err e => Err e
          | Ok token =>
              match formatCommand token c with
              | Err e => Err e
              | Ok _ => Ok tt
              end
          end
      end
  end.

(** [st] with the events [events] after its trace. *)
Definition after (st : Store) (events : list Event) : Store :=
  mkStore (global_file st) (local_file st) (trace st ++ events).

(** The events of the stages of a chain, as functions of what they read. *)
Definition request_events (env : Env) (project : string) (contents : option string)
  : list Event :=
  match loaded contents with
  | Err _ => []
  | Ok c =>
      Log LInfo "Setting up new git repo"
      :: match create_repo_request (APP_ENDPOINT env) (JStr project) c with
         | Ok req => [Http req]
         | Err _ => []
         end
  end.

Definition command_events (env : Env) (project token : string) (c : json) : list Event :=
  match formatCommand token c with
  | Ok cmd => [Shell (init_command env project cmd)]
  | Err _ => []
  end.

(** The events of a chain after the start of its copy. *)
Definition chain_events (env : Env) (contents : option string)
    (cfg : list (string * string)) (project : string) : list Event :=
  match shell_exit env (copy_command env cfg project) with
  | Some _ => []
  | None =>
      request_events env project contents
      ++ match requested env project contents with
         | Err _ => []
         | Ok (c, req) =>
             match http_response env req with
             | Err _ => []
             | Ok token => command_events env project token c
             end
         end
  end.

(** The line the [.done] callback prints for chain [i]. *)
Definition done_message (env : Env) (s : Split) (i : nat) (project : string) : string :=
  if decide (i = last_index s) then "Done setup for " +:+ target env project else "NaN".




(** ** Sample worlds *)

Definition credentials (token email : string) : json :=
  JObj [("token", JStr token); ("email", JStr email)].

(** The text of [JSON.stringify({token, email})], followed by [rest]. *)
Definition credentials_text (token email rest : string) : string :=
  String "{" (quoted_then "token" (String ":" (quoted_then token
    (String "," (quoted_then "email" (String ":" (quoted_then email
       (String "}" rest)))))))).

Definition demo_package : Package :=
  mkPackage (Some "demo") (Some [("app", "./app")]).

Definition two_projects : Package :=
  mkPackage (Some "demo") (Some [("web", "./web"); ("app", "./app")]).

(** Every collaborator succeeds, the service answers [abc123], and
    [cli.info] returns [undefined]. *)
Definition fair_env : Env :=
  mkEnv None "/tmp" (Ok demo_package) (fun _ => Ok "abc123") (fun _ => None)
    (fun _ => None) (Ok "t") (Ok "e") (Ok "typed") None.

(** As [fair_env], with [RNPLAY_ENV] as given. *)
Definition in_environment (v : option string) : Env :=
  mkEnv v "/tmp" (Ok demo_package) (fun _ => Ok "abc123") (fun _ => None)
    (fun _ => None) (Ok "t") (Ok "e") (Ok "typed") None.

(** As [fair_env], with two projects to split and a [cli.info] that
    returns [true]. *)
Definition chatty_env : Env :=
  mkEnv None "/tmp" (Ok two_projects) (fun _ => Ok "abc123") (fun _ => None)
    (fun _ => None) (Ok "t") (Ok "e") (Ok "typed") (Some (JBool true)).

Definition nothing_to_split : Env :=
  mkEnv None "/tmp" (Ok (mkPackage (Some "demo") (Some []))) (fun _ => Ok "abc123")
    (fun _ => None) (fun _ => None) (Ok "t") (Ok "e") (Ok "typed") (Some (JBool true)).



Definition empty_store : Store := mkStore None None [].

(** [~/.rnplay] as [saveConfig] leaves it for the token [t] and the email [e]. *)
Definition signed_in : Store :=
  mkStore (Some (stringify (credentials "t" "e") +:+ newline)) None [].

(** No global configuration; a local one with the url token [abc123]. *)
Definition visited : Store :=
  mkStore None (Some (local_config "abc123")) [].

(** No global configuration; an empty local one. *)
Definition unvisited : Store :=
  mkStore None (Some "{}") [].

(** ** Observations on the entry point, on the stages of create and on split as a whole *)

(** The key the documentation of [getFirstTrueOption] promises: that of
    the first item which has a truthy value. *)
Definition first_true (options : list (string * json)) : option string :=
  find (fun key => truthy (lookup_prop key options) && negb (String.eqb key ""))
    (map fst options).

(** The first flag, in key order, that was given a truthy value. *)
Definition first_flag (options : list (Flag * json)) : option Flag :=
  fst <$> find (fun fv => truthy (Some (snd fv))) options.

(** The workflow an action map has for a flag, run as [cli.main] runs it. *)
Definition perform (map : string -> option Workflow) (f : Flag) (st : Store) : Invocation :=
  match map (long_name f) with
  | None => Usage st
  | Some (Sequential action) => Ran (main action st)
  | Some (Concurrent action) => Splitting (action st)
  end.

(** [~/.rnplay] as [createConfig] writes it. *)
Definition saved_config (token email : string) : string :=
  stringify (credentials token email) +:+ newline.

(** The older program's wording of [create_first]. *)
Definition legacy_create_first : string :=
  "You have to create an application using `rnplay-cli --create` first".

(** The effects of the rewrite's create, in their order. *)
Definition create_steps (req : Request) (urlToken cmd : string) : list Event :=
  [Log LInfo "Setting up new git repo";
   Http req;
   FileWrite LocalConfigFile (local_config urlToken);
   Log LInfo "Adding git remote";
   Shell cmd].

(** The effects of the older program's create, in their order, for the
    request, the text written to [~/.rnplay] and the remote URL. *)
Definition legacy_create_steps (req : Request) (text address : string) : list Event :=
  [Log LInfo "Setting up new git repo";
   Http req;
   FileWrite GlobalConfigFile text;
   Log LInfo "Adding git remote";
   Shell ("git remote add rnplay " +:+ address);
   Log LOk ("Added remote with name `rnplay and url: `" +:+ address +:+ "`");
   Log LOk "All done! Use `git push rnplay master` to push your application.";
   Log LOk "You can use  `rnplay-cli --open` to open this application on rnplay.org"].

(** The properties are strings under distinct keys, none of them an
    array index: such an object lists its keys in the order they were
    added. *)
Definition plain (props : list (string * json)) : Prop :=
  Forall (fun kv => exists s, snd kv = JStr s) props /\
  NoDup (map fst props) /\
  Forall (fun kv => array_index (fst kv) = None) props.

(** The members of a printed object after the opening brace, for
    string values, and the text that follows the object. *)
Fixpoint members_text (props : list (string * json)) (rest : string) : string :=
  match props with
  | [] => String "}" rest
  | [(k, v)] =>
      quoted_then k (String ":" (quoted_then (to_string v) (String "}" rest)))
  | (k, v) :: more =>
      quoted_then k (String ":" (quoted_then (to_string v)
                                   (String "," (members_text more rest))))
  end.



(** The kinds of event split produces. *)
Definition provisioning (e : Event) : Prop :=
  match e with
  | Log LInfo _ | Http _ | Shell _ => True
  | _ => False
  end.

(** The request and the git command of the chain of entry [i], as
    functions of the contents of [~/.rnplay]. *)
Definition request_of (env : Env) (contents : option string)
    (cfg : list (string * string)) (i : nat) : option Request :=
  project ← folders cfg !! i;
  match requested env project contents with
  | Ok (_, req) => Some req
  | Err _ => None
  end.

(** The git command: [cd <target> && git init && git remote add ...]. *)
Definition init_of (env : Env) (contents : option string)
    (cfg : list (string * string)) (i : nat) : option string :=
  project ← folders cfg !! i;
  match requested env project contents with
  | Ok (c, req) =>
      match http_response env req with
      | Ok token =>
          match formatCommand token c with
          | Ok cmd => Some (init_command env project cmd)
          | Err _ => None
          end
      | Err _ => None
      end
  | Err _ => None
  end.

(** What a completion of chain [i] makes of its branch, and the events
    it adds. *)
Definition step_of (env : Env) (s : Split) (i : nat) (project : string) (b : Branch)
  : Branch * list Event :=
  match b with
  | Copying =>
      (match shell_exit env (copy_command env (config s) project) with
       | Some e => Failed e
       | None => ReadingConfig
       end, [])
  | ReadingConfig =>
      (match requested env project (global_file (store s)) with
       | Ok (c, req) => Posting c req
       | Err e => Failed e
       end, request_events env project (global_file (store s)))
  | Posting c req =>
      match http_response env req with
      | Err e => (Failed e, [])
      | Ok token =>
          match formatCommand token c with
          | Ok cmd => (Done, [Shell (init_command env project cmd);
                              Log LInfo (done_message env s i project)])
          | Err e => (Failed e, [])
          end
      end
  | Done => (Done, [])
  | Failed e => (Failed e, [])
  end.

(** The state of a split that started from the store [st0], with the
    chains that have sent their request and those that have started
    their git command, in the order they did. *)
Definition provisioned (env : Env) (st0 : Store) (cfg : list (string * string))
    (s : Split) (posted finished : list nat) : Prop :=
  config s = cfg /\
  length (branches s) = length cfg /\
  (exists events, store s = after st0 events /\ Forall provisioning events) /\
  (forall i c req, branches s !! i = Some (Posting c req) ->
     exists project, folders cfg !! i = Some project /\
                     requested env project (global_file st0) = Ok (c, req)) /\
  NoDup posted /\ NoDup finished /\
  (forall i, i ∈ posted ->
     exists b, branches s !! i = Some b /\ b <> Copying /\ b <> ReadingConfig) /\
  (forall i, i ∈ finished <-> branches s !! i = Some Done) /\
  (exists reqs,
     requests (trace (store s)) = requests (trace st0) ++ reqs /\
     Forall2 (fun i req => request_of env (global_file st0) cfg i = Some req) posted reqs) /\
  (exists inits,
     commands (trace (store s))
     = commands (trace st0) ++ map (copy_command env cfg) (folders cfg) ++ inits /\
     Forall2 (fun i cmd => init_of env (global_file st0) cfg i = Some cmd) finished inits).

(** What the [.catch] of [cli.main] prints for the error [e]. *)
Definition oops (e : JsError) : list Event :=
  [Log LError ("Ooops, there has been an error: " +:+ newline +:+ message e);
   Log LInfo "If you are sure that you did nothing wrong, please file an issue at the rnplay-cli repo!"].

(** What the completion of one more of its operations makes of a
    chain, as a function of the contents of [~/.rnplay]. *)
Definition advance (env : Env) (contents : option string)
    (cfg : list (string * string)) (project : string) (b : Branch) : Branch :=
  match b with
  | Copying =>
      match shell_exit env (copy_command env cfg project) with
      | Some e => Failed e
      | None => ReadingConfig
      end
  | ReadingConfig =>
      match requested env project contents with
      | Ok (c, req) => Posting c req
      | Err e => Failed e
      end
  | Posting c req =>
      match http_response env req with
      | Err e => Failed e
      | Ok token =>
          match formatCommand token c with
          | Ok _ => Done
          | Err e => Failed e
          end
      end
  | Done => Done
  | Failed e => Failed e
  end.

(** How many operations of chain [i] a schedule completes. *)
Definition completions (i : nat) (schedule : list nat) : nat :=
  length (filter (fun j => j = i) schedule).

(** A result is a fulfilment. *)
Definition fulfils {A} (r : Result A) : bool :=
  match r with
  | Ok _ => true
  | Err _ => false
  end.

(** ** Sample worlds for them *)

(** The user answers both prompts with the empty string. *)
Definition silent_env : Env :=
  mkEnv None "/tmp" (Ok demo_package) (fun _ => Ok "abc123") (fun _ => None)
    (fun _ => None) (Ok "") (Ok "") (Ok "typed") None.

(** The prompt for the email is aborted. *)
Definition aborted_env : Env :=
  mkEnv None "/tmp" (Ok demo_package) (fun _ => Ok "abc123") (fun _ => None)
    (fun _ => None) (Ok "t") (Err (Error "canceled")) (Ok "typed") None.

(** A shell in which every command fails. *)
Definition no_shell_env : Env :=
  mkEnv None "/tmp" (Ok demo_package) (fun _ => Ok "abc123")
    (fun _ => Some (Error "Command failed")) (fun _ => None)
    (Ok "t") (Ok "e") (Ok "typed") None.

(** [~/.rnplay] after an earlier create: the credentials and the url
    token [old]. *)
Definition created_before : Store :=
  mkStore
    (Some (stringify (JObj [("token", JStr "t"); ("email", JStr "e");
                            ("urlToken", JStr "old")]) +:+ newline))
    None [].

(** A manifest without an [rnplay] block. *)
Definition no_block_env : Env :=
  mkEnv None "/tmp" (Ok (mkPackage (Some "demo") None)) (fun _ => Ok "abc123")
    (fun _ => None) (fun _ => None) (Ok "t") (Ok "e") (Ok "typed") None.

(** A working directory without a manifest. *)
Definition no_manifest_env : Env :=
  mkEnv None "/tmp" (Err (Error "Cannot find module 'package.json'"))
    (fun _ => Ok "abc123") (fun _ => None) (fun _ => None)
    (Ok "t") (Ok "e") (Ok "typed") None.

(** A manifest without a name; the user types [typed]. *)
Definition nameless_env : Env :=
  mkEnv None "/tmp" (Ok (mkPackage None (Some [("app", "./app")])))
    (fun _ => Ok "abc123") (fun _ => None) (fun _ => None)
    (Ok "t") (Ok "e") (Ok "typed") None.

(** Both files in place: the credentials, and the url token [abc123]. *)
Definition at_home : Store :=
  mkStore (Some (saved_config "t" "e")) (Some (local_config "abc123")) [].


(** ** Strings *)

Lemma append_cons (x : ascii) (a b : string) :
  String x a +:+ b = String x (a +:+ b).
Proof. reflexivity. Qed.

Lemma append_assoc (a b c : string) : (a +:+ b) +:+ c = a +:+ b +:+ c.
Proof.
  induction a as [|x a IH]; [reflexivity |].
  rewrite !append_cons. now f_equal.
Qed.

Lemma append_length (a b : string) :
  String.length (a +:+ b) = String.length a + String.length b.
Proof.
  induction a as [|x a IH]; [reflexivity |].
  rewrite append_cons. cbn. now rewrite IH.
Qed.

Lemma append_inj_l (a b c : string) : a +:+ b = a +:+ c -> b = c.
Proof.
  induction a as [|x a IH]; intros H; [exact H |].
  rewrite !append_cons in H. injection H. auto.
Qed.

Lemma append_inj_r (a b c : string) : a +:+ c = b +:+ c -> a = b.
Proof.
  revert b. induction a as [|x a IH]; intros [|y b] H.
  - reflexivity.
  - apply (f_equal String.length) in H. rewrite !append_length in H. cbn in H. lia.
  - apply (f_equal String.length) in H. rewrite !append_length in H. cbn in H. lia.
  - rewrite !append_cons in H. injection H as -> H. f_equal. now apply IH.
Qed.

Lemma append_nil_l (a : string) : "" +:+ a = a.
Proof. reflexivity. Qed.

(** ** JSON: what is printed parses back *)

Lemma parse_chars_escape_char c r :
  parse_chars (escape_char c +:+ r)
  = parse_chars r ≫= (fun '(str, rest) => Some (String c str, rest)).
Proof. destruct c as [[] [] [] [] [] [] [] []]; reflexivity. Qed.

(** A string literal as [JSON.stringify] escapes it is read back as the
    string, whatever its bytes. *)
Lemma parse_chars_escape s rest :
  parse_chars (escape s +:+ String dquote rest) = Some (s, rest).
Proof.
  induction s as [|c s IH]; [reflexivity |].
  cbn [escape]. rewrite append_assoc, parse_chars_escape_char, IH. reflexivity.
Qed.

Lemma quote_append s rest : quote s +:+ rest = quoted_then s rest.
Proof.
  unfold quote, quoted, quoted_then. rewrite append_cons, append_assoc. reflexivity.
Qed.

Ltac flatten_text :=
  repeat (rewrite ?append_assoc, ?quote_append, ?append_cons, ?append_nil_l).

Lemma parse_value_string fuel s rest :
  parse_value (S fuel) (quoted_then s rest) = Some (JStr s, rest).
Proof.
  unfold quoted_then.
  transitivity (parse_chars (escape s +:+ String dquote rest)
                  ≫= (fun '(str, rest) => Some (JStr str, rest))); [reflexivity |].
  now rewrite parse_chars_escape.
Qed.

Lemma parse_member fuel k v rest acc :
  parse_members (S (S fuel)) (quoted_then k (String ":" (quoted_then v rest))) acc
  = value_then (S fuel) k acc (JStr v, rest).
Proof.
  unfold quoted_then at 1.
  transitivity
    (parse_chars (escape k +:+ String dquote (String ":" (quoted_then v rest)))
       ≫= (fun '(k, r) =>
              match skip_ws r with
              | String ":" r' => parse_value (S fuel) r' ≫= value_then (S fuel) k acc
              | _ => None
              end)); [reflexivity |].
  rewrite parse_chars_escape.
  transitivity (parse_value (S fuel) (quoted_then v rest) ≫= value_then (S fuel) k acc);
    [reflexivity |].
  now rewrite parse_value_string.
Qed.

Lemma parse_object fuel k r :
  parse_value (S fuel) (String "{" (quoted_then k r))
  = parse_members fuel (quoted_then k r) []
      ≫= (fun '(props, rest) => Some (JObj props, rest)).
Proof. reflexivity. Qed.

Lemma stringify_credentials token email rest :
  stringify (credentials token email) +:+ rest = credentials_text token email rest.
Proof.
  unfold credentials, credentials_text. cbn [stringify map fst snd join].
  change (stringify (JStr token)) with (quote token).
  change (stringify (JStr email)) with (quote email).
  flatten_text. reflexivity.
Qed.

Lemma parse_value_credentials fuel token email rest :
  parse_value (S (S (S (S fuel)))) (credentials_text token email rest)
  = Some (credentials token email, rest).
Proof.
  unfold credentials_text. rewrite parse_object, parse_member.
  transitivity
    (parse_members (S (S fuel))
       (quoted_then "email" (String ":" (quoted_then email (String "}" rest))))
       [("token", JStr token)]
       ≫= (fun '(props, rest) => Some (JObj props, rest))); [reflexivity |].
  rewrite parse_member. reflexivity.
Qed.

(** [{token, email}], printed and followed by a newline, parses back. *)
Lemma parse_credentials token email :
  parse (stringify (credentials token email) +:+ newline)
  = Some (credentials token email).
Proof.
  unfold parse. rewrite stringify_credentials.
  set (text := credentials_text token email newline).
  assert (Hfuel : 2 * String.length text + 2 = S (S (S (S (2 * String.length text - 2))))).
  { unfold text, credentials_text. cbn [String.length]. lia. }
  rewrite Hfuel. unfold text. rewrite parse_value_credentials. reflexivity.
Qed.

(** [{urlToken}], printed and followed by a newline, parses back. *)
Lemma parse_local_config urlToken :
  parse (local_config urlToken) = Some (JObj [("urlToken", JStr urlToken)]).
Proof.
  unfold parse, local_config. cbn [stringify map fst snd join].
  change (stringify (JStr urlToken)) with (quote urlToken).
  flatten_text.
  set (text := String "{" _).
  assert (Hfuel : 2 * String.length text + 2 = S (S (S (2 * String.length text - 1)))).
  { unfold text. cbn [String.length]. lia. }
  rewrite Hfuel. unfold text. rewrite parse_object, parse_member. reflexivity.
Qed.

(** Setting a property leaves the others as they were. *)
Lemma lookup_prop_app k props k' v :
  k <> k' -> lookup_prop k (props ++ [(k', v)]) = lookup_prop k props.
Proof.
  intros Hne. induction props as [|[k0 v0] props IH]; cbn.
  - now destruct (decide (k = k')).
  - now destruct (decide (k = k0)).
Qed.

Lemma lookup_prop_replace k props k' v props' :
  k <> k' -> replace_prop k' v props = Some props' ->
  lookup_prop k props' = lookup_prop k props.
Proof.
  intros Hne. revert props'. induction props as [|[k0 v0] props IH]; intros props'; cbn.
  - discriminate.
  - destruct (decide (k' = k0)) as [<- | Hk].
    + intros [= <-]. cbn. now destruct (decide (k = k')).
    + destruct (replace_prop k' v props) as [rest|]; [| discriminate].
      intros [= <-]. cbn. destruct (decide (k = k0)); [reflexivity | now apply IH].
Qed.

Lemma lookup_prop_insert_index k props i k' v :
  k <> k' -> lookup_prop k (insert_index i k' v props) = lookup_prop k props.
Proof.
  intros Hne. induction props as [|[k0 v0] props IH]; cbn.
  - now destruct (decide (k = k')).
  - destruct (array_index k0) as [j|].
    + destruct (j <? i)%N; cbn.
      * destruct (decide (k = k0)); [reflexivity | exact IH].
      * now destruct (decide (k = k')).
    + cbn. now destruct (decide (k = k')).
Qed.

Lemma lookup_prop_set_prop k props k' v :
  k <> k' -> lookup_prop k (set_prop k' v props) = lookup_prop k props.
Proof.
  intros Hne. unfold set_prop.
  destruct (replace_prop k' v props) as [props'|] eqn:Hr.
  - now apply (lookup_prop_replace k props k' v).
  - destruct (array_index k'); [now apply lookup_prop_insert_index | now apply lookup_prop_app].
Qed.

(** ** Traces *)

Lemma trace_write f data st : trace (write f data st) = trace st.
Proof. now destruct f. Qed.

Lemma requests_record e st :
  requests (trace (record e st))
  = requests (trace st) ++ match e with Http req => [req] | _ => [] end.
Proof. unfold requests. cbn. rewrite omap_app. now destruct e. Qed.

Lemma commands_record e st :
  commands (trace (record e st))
  = commands (trace st) ++ match e with Shell cmd => [cmd] | _ => [] end.
Proof. unfold commands. cbn. rewrite omap_app. now destruct e. Qed.

Lemma reports_record e st :
  reports (trace (record e st))
  = reports (trace st) ++ match e with Log LOk msg => [msg] | _ => [] end.
Proof. unfold reports. cbn. rewrite omap_app. now destruct e as [[] ?| | | | |]. Qed.

Lemma opened_record e st :
  opened (trace (record e st))
  = opened (trace st) ++ match e with Browser address => [address] | _ => [] end.
Proof. unfold opened. cbn. rewrite omap_app. now destruct e. Qed.

Lemma global_file_record e st : global_file (record e st) = global_file st.
Proof. reflexivity. Qed.

Ltac trace_simpl :=
  repeat (rewrite ?requests_record, ?commands_record, ?reports_record,
            ?opened_record, ?trace_write;
          cbn [app]; rewrite ?app_nil_r).

(** ** The configuration store *)

Lemma writeFileAsync_ok env f data st :
  write_error env f = None ->
  writeFileAsync env f data st = (Ok tt, record (FileWrite f data) (write f data st)).
Proof. intros H. unfold writeFileAsync. now rewrite H. Qed.

Lemma read_config_file_parsed f st contents conf :
  read f st = Some contents -> parse contents = Some conf ->
  read_config_file f st = (Ok conf, st).
Proof.
  intros Hr Hp. unfold read_config_file, catch, bind, readFileAsync, JSON_parse.
  rewrite Hr, Hp. reflexivity.
Qed.

(** C9.  Saving the configuration [{token:"t", email:"e"}] with
    [saveConfig] and reading it back with [readConfig] gives exactly
    that object, whenever the write itself goes through. *)
Theorem save_then_read_config env st :
  write_error env GlobalConfigFile = None ->
  exists st',
    Legacy.saveConfig env (credentials "t" "e") st = (Ok tt, st') /\
    Legacy.readConfig st' = (Ok (credentials "t" "e"), st').
Proof.
  intros Hw. eexists. split.
  - unfold Legacy.saveConfig, save_config_file. now apply writeFileAsync_ok.
  - unfold Legacy.readConfig.
    eapply read_config_file_parsed; [reflexivity | vm_compute; reflexivity].
Qed.

Lemma save_then_read_config_witness :
  write_error fair_env GlobalConfigFile = None /\
  exists st',
    Legacy.saveConfig fair_env (credentials "t" "e") empty_store = (Ok tt, st') /\
    Legacy.readConfig st' = (Ok (credentials "t" "e"), st').
Proof.
  split; [reflexivity | apply (save_then_read_config fair_env empty_store); reflexivity].
Defined.

(** The same for every token and every email: what [saveConfig] writes
    for [{token, email}], [readConfig] reads back as that object. *)
Theorem save_then_read_any_config env st token email :
  write_error env GlobalConfigFile = None ->
  exists st',
    Legacy.saveConfig env (credentials token email) st = (Ok tt, st') /\
    Legacy.readConfig st' = (Ok (credentials token email), st').
Proof.
  intros Hw. eexists. split.
  - unfold Legacy.saveConfig, save_config_file. now apply writeFileAsync_ok.
  - unfold Legacy.readConfig.
    eapply read_config_file_parsed; [reflexivity | apply parse_credentials].
Qed.

Lemma save_then_read_any_config_witness :
  exists st',
    Legacy.saveConfig fair_env (credentials "s3cr3t" "dev@example.org") signed_in
    = (Ok tt, st') /\
    Legacy.readConfig st' = (Ok (credentials "s3cr3t" "dev@example.org"), st').
Proof.
  apply (save_then_read_any_config fair_env signed_in "s3cr3t" "dev@example.org").
  reflexivity.
Defined.

Lemma lacks_credentials_false conf :
  lacks_credentials conf = Ok false ->
  exists email token,
    get_prop conf "email" = Ok email /\ get_prop conf "token" = Ok token /\
    truthy email = true /\ truthy token = true.
Proof.
  unfold lacks_credentials.
  destruct (get_prop conf "email") as [email|]; [| discriminate].
  destruct (truthy email) eqn:He; cbn; [| discriminate].
  destruct (get_prop conf "token") as [token|]; [| discriminate].
  destruct (truthy token) eqn:Ht; cbn; [| discriminate].
  intros _. eauto 10.
Qed.

Lemma getConfig_loaded st : getConfig st = (loaded (global_file st), st).
Proof.
  unfold getConfig, readConfig, checkConfig, read_config_file, readFileAsync,
    JSON_parse, catch, bind, lift, loaded. cbn [read].
  destruct (global_file st) as [text|]; [| reflexivity].
  destruct (parse text) as [conf|]; [| reflexivity]. cbn.
  destruct (lacks_credentials conf) as [[|]|e]; reflexivity.
Qed.

Lemma getConfig_valid st contents conf :
  global_file st = Some contents -> parse contents = Some conf ->
  lacks_credentials conf = Ok false ->
  getConfig st = (Ok conf, st).
Proof.
  intros Hf Hp Hc. rewrite getConfig_loaded. unfold loaded. now rewrite Hf, Hp, Hc.
Qed.


(** ** The open workflow *)

Lemma openAppInBrowser_opening env st :
  openAppInBrowser env st
  = match opening env (local_file st) with
    | Ok event => (Ok tt, record event st)
    | Err e => (Err e, st)
    end.
Proof.
  unfold openAppInBrowser, readLocalConfig, read_config_file, readFileAsync,
    JSON_parse, catch, bind, lift, opening. cbn [read].
  destruct (local_file st) as [text|]; [| reflexivity].
  destruct (parse text) as [conf|]; [| reflexivity]. cbn.
  destruct (get_prop conf "urlToken") as [urlToken|]; [| reflexivity].
  destruct (truthy urlToken); reflexivity.
Qed.

(** C4.  For a local configuration without [urlToken], [open] opens no
    URL and prints the line that tells the user to run create first;
    for one whose [urlToken] is [abc123] it hands [opener] exactly the
    app base URL followed by [abc123], and does nothing else. *)
Theorem open_by_local_config env st contents props :
  local_file st = Some contents -> parse contents = Some (JObj props) ->
  (lookup_prop "urlToken" props = None ->
     exists st',
       openAppInBrowser env st = (Ok tt, st') /\
       trace st' = trace st ++ [Log LError create_first] /\
       opened (trace st') = opened (trace st)) /\
  (lookup_prop "urlToken" props = Some (JStr "abc123") ->
     exists st',
       openAppInBrowser env st = (Ok tt, st') /\
       trace st' = trace st ++ [Browser (RNPLAY_APP_URL env +:+ "abc123")]).
Proof.
  intros Hf Hp. rewrite openAppInBrowser_opening. unfold opening.
  rewrite Hf, Hp. cbn [get_prop].
  split; intros ->; cbn [truthy val_to_string to_string]; eexists;
    (split; [reflexivity |]).
  - split; [reflexivity |]. now trace_simpl.
  - reflexivity.
Qed.

Lemma open_by_local_config_witness :
  (exists st',
      openAppInBrowser fair_env unvisited = (Ok tt, st') /\
      trace st' = [Log LError create_first] /\
      opened (trace st') = []) /\
  (exists st',
      openAppInBrowser fair_env visited = (Ok tt, st') /\
      trace st' = [Browser "https://rnplay.org/apps/abc123"]).
Proof.
  split.
  - refine (proj1 (open_by_local_config fair_env unvisited "{}" [] _ _) _);
      vm_compute; reflexivity.
  - refine (proj2 (open_by_local_config fair_env visited (local_config "abc123")
                     [("urlToken", JStr "abc123")] _ _) _);
      vm_compute; reflexivity.
Defined.

(** ** URLs *)

Lemma Rewrite_remote_url_shape conf token urlToken :
  get_prop conf "token" = Ok token ->
  remote_url urlToken conf
  = Ok (git_url_shape (val_to_string token) baseHost urlToken).
Proof. intros H. unfold remote_url. rewrite H. reflexivity. Qed.

(** The older program puts [:jsierles] between the host and the path. *)
Lemma Legacy_remote_url conf token urlToken :
  get_prop conf "token" = Ok token ->
  Legacy.remote_url conf urlToken
  = Ok (git_url_shape (val_to_string token) "rnplay.org:jsierles" urlToken).
Proof. intros H. unfold Legacy.remote_url. rewrite H. reflexivity. Qed.

(** C8.  For every token and url token the rewrite's remote URL is
    [https://<token>:@git.rnplay.org/<urlToken>.git]; the older
    program's is not: it has the shape only for the "host"
    [rnplay.org:jsierles], and at the token [t] and the url token [u] it
    is [https://t:@git.rnplay.org:jsierles/u.git]. *)
Theorem remote_url_shapes :
  (forall token email urlToken,
      remote_url urlToken (credentials token email)
      = Ok (git_url_shape token baseHost urlToken)) /\
  (forall token email urlToken host,
      Legacy.remote_url (credentials token email) urlToken
      = Ok (git_url_shape token host urlToken) <->
      host = "rnplay.org:jsierles") /\
  Legacy.remote_url (credentials "t" "e") "u"
  = Ok "https://t:@git.rnplay.org:jsierles/u.git" /\
  Legacy.remote_url (credentials "t" "e") "u"
  <> Ok (git_url_shape "t" baseHost "u").
Proof.
  split; [| split; [| split]].
  - intros token email urlToken.
    now rewrite (Rewrite_remote_url_shape _ (Some (JStr token))).
  - intros token email urlToken host.
    rewrite (Legacy_remote_url _ (Some (JStr token))) by reflexivity.
    cbn [val_to_string to_string]. split.
    + intros H. injection H as H. unfold git_url_shape in H.
      apply append_inj_l, append_inj_l, append_inj_l in H.
      symmetry. eapply append_inj_r. exact H.
    + now intros ->.
  - reflexivity.
  - discriminate.
Qed.

(** C7, as the claim has it, fails: the older program's endpoint names
    [staging.] with the variable unset, its web URL names no prefix with
    the variable set to [staging], and the rewrite applies no prefix
    when the variable is set to the empty string. *)
Lemma environment_prefix_not_everywhere :
  Legacy.APP_ENDPOINT <> prefixed None "rnplay.org/apps.json" /\
  Legacy.RN_PLAY_APP_URL <> prefixed (Some "staging") "rnplay.org/apps/" /\
  RNPLAY_APP_URL (in_environment (Some ""))
  <> prefixed (RNPLAY_ENV (in_environment (Some ""))) "rnplay.org/apps/".
Proof. repeat split; discriminate. Qed.

(** C7, amended.  In the rewrite a non-empty value of the variable,
    followed by a dot, comes before [rnplay.org] in the web URL and in
    the API endpoint; an unset or empty variable leaves the host bare.
    The older program has one endpoint and one web URL, whatever the
    environment. *)
Theorem environment_prefix env :
  (forall v, RNPLAY_ENV env = Some v -> v <> "" ->
     RNPLAY_APP_URL env = prefixed (Some v) "rnplay.org/apps/" /\
     APP_ENDPOINT env = prefixed (Some v) "rnplay.org/apps.json") /\
  (RNPLAY_ENV env = None \/ RNPLAY_ENV env = Some "" ->
     RNPLAY_APP_URL env = prefixed None "rnplay.org/apps/" /\
     APP_ENDPOINT env = prefixed None "rnplay.org/apps.json") /\
  Legacy.RN_PLAY_APP_URL = "https://rnplay.org/apps/" /\
  Legacy.APP_ENDPOINT = "https://staging.rnplay.org/apps.json".
Proof.
  unfold RNPLAY_APP_URL, APP_ENDPOINT, PREFIX, prefixed.
  split; [| split; [| split; reflexivity]].
  - intros v -> Hv. destruct v; [congruence | split; reflexivity].
  - intros [-> | ->]; split; reflexivity.
Qed.

Lemma environment_prefix_witness :
  RNPLAY_APP_URL (in_environment (Some "staging")) = "https://staging.rnplay.org/apps/" /\
  APP_ENDPOINT (in_environment (Some "staging")) = "https://staging.rnplay.org/apps.json".
Proof.
  refine (proj1 (environment_prefix (in_environment (Some "staging"))) "staging" _ _).
  - reflexivity.
  - discriminate.
Defined.

(** ** The create workflow *)

(** The whole run of the rewrite's [createGitRepo], from a valid global
    configuration and a manifest that declares a non-empty name. *)
Lemma createGitRepo_run env st contents conf pkg c n email token :
  global_file st = Some contents -> parse contents = Some conf ->
  get_prop conf "email" = Ok email -> get_prop conf "token" = Ok token ->
  truthy email = true -> truthy token = true ->
  package_json env = Ok pkg -> name pkg = Some (String c n) ->
  let req := create_request env (String c n) email token in
  let st1 := record (Http req) (record (Log LInfo "Setting up new git repo") st) in
  createGitRepo env st =
    match http_response env req with
    | Err e => (Err e, st1)
    | Ok urlToken =>
        match write_error env LocalConfigFile with
        | Some e => (Err e, st1)
        | None =>
            let st2 :=
              record (Shell (add_remote token urlToken))
                (record (Log LInfo "Adding git remote")
                   (record (FileWrite LocalConfigFile (local_config urlToken))
                      (write LocalConfigFile (local_config urlToken) st1))) in
            match shell_exit env (add_remote token urlToken) with
            | Some e => (Err e, st2)
            | None => (Err (ReferenceError "remoteName is not defined"), st2)
            end
        end
    end.
Proof.
  intros Hf Hp He Ht Hte Htt Hpkg Hname req st1.
  assert (Hc : lacks_credentials conf = Ok false).
  { unfold lacks_credentials. now rewrite He, Hte, Ht, Htt. }
  unfold createGitRepo.
  unfold bind at 1. rewrite (getConfig_valid st contents conf Hf Hp Hc).
  unfold bind at 1. unfold maybeUsePackageName at 1. rewrite Hpkg, Hname.
  unfold ret at 1. cbn [fmap option_fmap option_map].
  unfold bind at 1. unfold resolve_name. cbn [truthy]. unfold ret at 1.
  unfold makeURLToken, postCreateRepo, post_create_repo, send_create_repo,
    create_repo_request.
  rewrite He, Ht.
  unfold bind, lift, cli_info, emit, ret. cbn [fst snd].
  fold (create_request env (String c n) email token). fold req. fold st1.
  destruct (http_response env req) as [urlToken|e]; [| reflexivity].
  unfold saveLocalConfig, save_config_file, writeFileAsync.
  destruct (write_error env LocalConfigFile); [reflexivity |].
  unfold formatCommand, remote_url. rewrite Ht.
  unfold execAsync, bind, emit.
  fold (local_config urlToken).
  change ("git remote add " +:+ "rnplay" +:+ " " +:+ "https://"
            +:+ val_to_string token +:+ ":@git.rnplay.org/" +:+ urlToken +:+ ".git")
    with (add_remote token urlToken).
  destruct (shell_exit env (add_remote token urlToken)); reflexivity.
Qed.

Lemma git_url_contains_urlToken token urlToken :
  contains urlToken (git_url_shape (val_to_string token) baseHost urlToken).
Proof.
  exists ("https://" +:+ val_to_string token +:+ ":@git." +:+ baseHost +:+ "/"), ".git".
  unfold git_url_shape. now rewrite !append_assoc.
Qed.

(** C2.  With a valid global configuration and a manifest that declares
    the name [demo], [create] sends exactly one request, whose body
    contains ["name":"demo"]; when the service answers with a url token
    and the write goes through, the local configuration file holds
    [{"urlToken": <that token>}] and exactly one shell command has been
    run: [git remote add rnplay <url>], where the URL contains the token. *)
Theorem create_with_manifest_name env st contents conf pkg :
  global_file st = Some contents -> parse contents = Some conf ->
  lacks_credentials conf = Ok false ->
  package_json env = Ok pkg -> name pkg = Some "demo" ->
  exists r st' req,
    createGitRepo env st = (r, st') /\
    requests (trace st') = requests (trace st) ++ [req] /\
    contains (quoted "name" +:+ ":" +:+ quoted "demo") (body req) /\
    (forall urlToken,
        http_response env req = Ok urlToken ->
        write_error env LocalConfigFile = None ->
        local_file st' = Some (stringify (JObj [("urlToken", JStr urlToken)]) +:+ newline) /\
        readLocalConfig st' = (Ok (JObj [("urlToken", JStr urlToken)]), st') /\
        exists address,
          commands (trace st') = commands (trace st) ++ ["git remote add rnplay " +:+ address] /\
          contains urlToken address).
Proof.
  intros Hf Hp Hc Hpkg Hname.
  destruct (lacks_credentials_false conf Hc) as (email & token & He & Ht & Hte & Htt).
  pose proof (createGitRepo_run env st contents conf pkg _ _ email token
                Hf Hp He Ht Hte Htt Hpkg Hname) as Hrun.
  cbv zeta in Hrun.
  set (req := create_request env "demo" email token) in *.
  assert (Hbody : contains (quoted "name" +:+ ":" +:+ quoted "demo") (body req)).
  { exists ("{" +:+ quoted "app" +:+ ":{"), ("," +:+ quoted "uses_git" +:+ ":1}}").
    reflexivity. }
  set (st1 := record (Http req) (record (Log LInfo "Setting up new git repo") st)) in Hrun.
  assert (Hreq1 : requests (trace st1) = requests (trace st) ++ [req])
    by (subst st1; now trace_simpl).
  assert (Hcmd1 : commands (trace st1) = commands (trace st))
    by (subst st1; now trace_simpl).
  destruct (http_response env req) as [urlToken|e] eqn:Hresp.
  - destruct (write_error env LocalConfigFile) eqn:Hw.
    + eexists _, _, req. split; [exact Hrun |].
      split; [exact Hreq1 |]. split; [exact Hbody |]. intros; congruence.
    + set (st2 := record (Shell (add_remote token urlToken)) _) in Hrun.
      assert (Hreq : requests (trace st2) = requests (trace st) ++ [req])
        by (subst st2; trace_simpl; exact Hreq1).
      assert (Hcmd : commands (trace st2)
                     = commands (trace st) ++ [add_remote token urlToken])
        by (subst st2; trace_simpl; now rewrite Hcmd1).
      assert (Hloc : local_file st2 = Some (local_config urlToken)) by reflexivity.
      exists (fst (createGitRepo env st)), st2, req.
      split; [destruct (shell_exit env (add_remote token urlToken)); now rewrite Hrun |].
      split; [exact Hreq |]. split; [exact Hbody |].
      intros urlToken' Hu _. assert (urlToken' = urlToken) as -> by congruence.
      split; [exact Hloc |].
      split; [exact (read_config_file_parsed LocalConfigFile st2 _ _ Hloc
                       (parse_local_config urlToken)) |].
      exists (git_url_shape (val_to_string token) baseHost urlToken).
      split; [exact Hcmd | apply git_url_contains_urlToken].
  - eexists _, _, req. split; [exact Hrun |].
    split; [exact Hreq1 |]. split; [exact Hbody |]. intros; congruence.
Qed.

Lemma create_with_manifest_name_witness :
  exists r st' req,
    createGitRepo fair_env signed_in = (r, st') /\
    requests (trace st') = requests (trace signed_in) ++ [req] /\
    contains (quoted "name" +:+ ":" +:+ quoted "demo") (body req) /\
    (forall urlToken,
        http_response fair_env req = Ok urlToken ->
        write_error fair_env LocalConfigFile = None ->
        local_file st' = Some (stringify (JObj [("urlToken", JStr urlToken)]) +:+ newline) /\
        readLocalConfig st' = (Ok (JObj [("urlToken", JStr urlToken)]), st') /\
        exists address,
          commands (trace st')
          = commands (trace signed_in) ++ ["git remote add rnplay " +:+ address] /\
          contains urlToken address).
Proof.
  apply (create_with_manifest_name fair_env signed_in
           (stringify (credentials "t" "e") +:+ newline) (credentials "t" "e")
           demo_package); vm_compute; reflexivity.
Defined.

(** Whatever the environment and the store, the rewrite's [createGitRepo]
    ends rejected and prints none of its success lines: the callback
    that follows the shell command reads [remoteName], which it does not
    declare. *)
Theorem createGitRepo_never_reports env st :
  exists e st',
    createGitRepo env st = (Err e, st') /\
    reports (trace st') = reports (trace st).
Proof.
  unfold createGitRepo, getConfig, readConfig, checkConfig, makeURLToken,
    postCreateRepo, post_create_repo, send_create_repo, saveLocalConfig,
    save_config_file, writeFileAsync, execAsync, read_config_file, readFileAsync,
    JSON_parse, maybeUsePackageName, resolve_name, readRepoNameFromCLI, undeclared,
    cli_info, catch, bind, lift, emit, ret, throw.
  repeat match goal with
         | |- context [match ?x with _ => _ end] =>
             lazymatch x with
             | context [match _ with _ => _ end] => fail
             | _ => destruct x eqn:?
             end
         end;
    simplify_eq; eexists _, _; (split; [reflexivity |]); trace_simpl; reflexivity.
Qed.

(** C3.  From the configuration [{token:"t", email:"e"}], the manifest
    name [demo], a service that answers [abc123] and a shell in which
    every command succeeds, the rewrite runs the git command and is then
    rejected with [remoteName is not defined]: it prints no success
    line, and [cli.main] prints the error.  The older program, from the
    same start, prints the three lines. *)
Theorem create_after_remote_added :
  shell_exit fair_env "git remote add rnplay https://t:@git.rnplay.org/abc123.git" = None /\
  (let (r, st') := createGitRepo fair_env signed_in in
   r = Err (ReferenceError "remoteName is not defined") /\
   commands (trace st') = ["git remote add rnplay https://t:@git.rnplay.org/abc123.git"] /\
   reports (trace st') = []) /\
  (let (r, st') := main (createGitRepo fair_env) signed_in in
   r = Ok tt /\
   trace st' =
       [Log LInfo "Setting up new git repo";
        Http (create_request fair_env "demo" (Some (JStr "e")) (Some (JStr "t")));
        FileWrite LocalConfigFile (local_config "abc123");
        Log LInfo "Adding git remote";
        Shell "git remote add rnplay https://t:@git.rnplay.org/abc123.git";
        Log LError ("Ooops, there has been an error: " +:+ newline
                      +:+ "remoteName is not defined");
        Log LInfo "If you are sure that you did nothing wrong, please file an issue at the rnplay-cli repo!";
        Exit]) /\
  (let (r, st') := Legacy.createGitRepo fair_env signed_in in
   r = Ok tt /\
   commands (trace st')
   = ["git remote add rnplay https://t:@git.rnplay.org:jsierles/abc123.git"] /\
   reports (trace st') =
     ["Added remote with name `rnplay and url: `https://t:@git.rnplay.org:jsierles/abc123.git`";
      "All done! Use `git push rnplay master` to push your application.";
      "You can use  `rnplay-cli --open` to open this application on rnplay.org"]).
Proof.
  split; [reflexivity |]. split; [| split]; vm_compute; repeat split.
Qed.

(** The older program, from a valid configuration, a manifest that
    declares a non-empty name, a service that answers and a shell and a
    file system that succeed: one request to the staging endpoint, the
    url token added to [~/.rnplay], one git command, and the three
    success lines. *)
Theorem Legacy_create_reports env st contents props pkg c n email token urlToken :
  global_file st = Some contents -> parse contents = Some (JObj props) ->
  lookup_prop "email" props = email -> lookup_prop "token" props = token ->
  truthy email = true -> truthy token = true ->
  package_json env = Ok pkg -> name pkg = Some (String c n) ->
  http_response env (legacy_request (String c n) email token) = Ok urlToken ->
  write_error env GlobalConfigFile = None ->
  shell_exit env (legacy_add_remote token urlToken) = None ->
  exists st',
    Legacy.createGitRepo env st = (Ok tt, st') /\
    global_file st'
    = Some (stringify (JObj (set_prop "urlToken" (JStr urlToken) props)) +:+ newline) /\
    requests (trace st') = requests (trace st) ++ [legacy_request (String c n) email token] /\
    commands (trace st') = commands (trace st) ++ [legacy_add_remote token urlToken] /\
    reports (trace st') = reports (trace st) ++ legacy_reports token urlToken.
Proof.
  intros Hf Hp He Ht Hte Htt Hpkg Hname Hresp Hw Hsh.
  unfold Legacy.createGitRepo.
  unfold bind at 1. unfold Legacy.readConfig, Legacy.CONFIG_FILE_PATH.
  rewrite (read_config_file_parsed GlobalConfigFile st contents (JObj props) Hf Hp).
  unfold bind at 1. unfold lift at 1. unfold lacks_credentials. cbn [get_prop].
  rewrite He, Hte, Ht, Htt. cbn [negb].
  unfold bind at 1. unfold ret at 1.
  unfold bind at 1. unfold maybeUsePackageName at 1. rewrite Hpkg, Hname.
  unfold ret at 1. cbn [fmap option_fmap option_map].
  unfold bind at 1. unfold resolve_name. cbn [truthy]. unfold ret at 1.
  unfold Legacy.postCreateRepo, post_create_repo, send_create_repo, create_repo_request.
  cbn [get_prop]. rewrite He, Ht.
  unfold bind, lift, cli_info, cli_ok, emit, ret. cbn [fst snd].
  fold (legacy_request (String c n) email token). rewrite Hresp.
  cbn [Legacy.set_urlToken].
  unfold Legacy.saveConfig, Legacy.CONFIG_FILE_PATH, save_config_file, writeFileAsync.
  rewrite Hw.
  unfold Legacy.remote_url. cbn [get_prop].
  rewrite lookup_prop_set_prop by discriminate. rewrite Ht.
  unfold execAsync, bind, emit.
  change ("git remote add " +:+ "rnplay" +:+ " " +:+ "https://"
            +:+ val_to_string token +:+ ":@git.rnplay.org:jsierles/" +:+ urlToken +:+ ".git")
    with (legacy_add_remote token urlToken).
  rewrite Hsh. unfold ret.
  eexists. split; [reflexivity |].
  split; [reflexivity |].
  trace_simpl. rewrite <- !app_assoc. cbn [app]. repeat split.
Qed.

Lemma Legacy_create_reports_witness :
  exists st',
    Legacy.createGitRepo fair_env signed_in = (Ok tt, st') /\
    global_file st'
    = Some (stringify (JObj (set_prop "urlToken" (JStr "abc123")
                               [("token", JStr "t"); ("email", JStr "e")])) +:+ newline) /\
    requests (trace st')
    = requests (trace signed_in) ++ [legacy_request "demo" (Some (JStr "e")) (Some (JStr "t"))] /\
    commands (trace st')
    = commands (trace signed_in) ++ [legacy_add_remote (Some (JStr "t")) "abc123"] /\
    reports (trace st')
    = reports (trace signed_in) ++ legacy_reports (Some (JStr "t")) "abc123".
Proof.
  apply (Legacy_create_reports fair_env signed_in
           (stringify (credentials "t" "e") +:+ newline)
           [("token", JStr "t"); ("email", JStr "e")] demo_package "d" "emo");
    vm_compute; reflexivity.
Defined.


Lemma Legacy_createGitRepo_rejected env st e :
  loaded (global_file st) = Err e -> Legacy.createGitRepo env st = (Err e, st).
Proof.
  intros H. unfold Legacy.createGitRepo, Legacy.readConfig, Legacy.CONFIG_FILE_PATH,
    read_config_file, readFileAsync, JSON_parse, catch.
  unfold bind at 1. unfold bind at 1. unfold loaded in H. cbn [read].
  destruct (global_file st) as [text|]; [| now injection H as <-].
  destruct (parse text) as [conf|]; [| now injection H as <-].
  cbn. unfold bind at 1. unfold lift at 1.
  destruct (lacks_credentials conf) as [[|]|e']; [| discriminate |]; now injection H as <-.
Qed.

(** ** The split workflow: what a step changes *)

Lemma folders_length cfg : length (folders cfg) = length cfg.
Proof. unfold folders. now rewrite length_map. Qed.

Lemma lookup_map_const {A B} (b : B) (l : list A) i :
  i < length l -> map (fun _ => b) l !! i = Some b.
Proof.
  revert i. induction l as [|x l IH]; intros [|i] H; cbn in *; try lia; [reflexivity |].
  apply IH. lia.
Qed.

Lemma forEach_start_branch env cfg projects st :
  forEach projects (start_branch env cfg) st
  = mkStore (global_file st) (local_file st) (trace st ++ started env cfg projects).
Proof.
  revert st. induction projects as [|p rest IH]; intros st; cbn.
  - rewrite app_nil_r. now destruct st.
  - rewrite IH. cbn. now rewrite <- !app_assoc.
Qed.

Lemma commands_started env cfg projects :
  commands (started env cfg projects) = map (copy_command env cfg) projects.
Proof. induction projects as [|p rest IH]; cbn; [reflexivity | now rewrite <- IH]. Qed.

Lemma requests_started env cfg projects : requests (started env cfg projects) = [].
Proof. induction projects as [|p rest IH]; cbn; [reflexivity | exact IH]. Qed.

(** The state [splitByConfig] leaves: every chain copying, the copy
    commands started, nothing else done. *)
Lemma splitByConfig_running env st s0 :
  splitByConfig env st = Running s0 ->
  branches s0 = map (fun _ => Copying) (folders (config s0)) /\
  store s0 = mkStore (global_file st) (local_file st)
               (trace st ++ started env (config s0) (folders (config s0))) /\
  (config s0 <> [] -> promise s0 = Pending).
Proof.
  unfold splitByConfig. destruct (processRNPlayConfig env) as [[cfg|]|e]; intros H;
    simplify_eq; cbn.
  - rewrite forEach_start_branch. auto.
  - rewrite app_nil_r. destruct st. split; [reflexivity |]. split; [reflexivity | congruence].
Qed.

Lemma complete_config env i s : config (complete env i s) = config s.
Proof. unfold complete, on_done, resolve. repeat case_match; reflexivity. Qed.

Lemma run_config env schedule s : config (run env schedule s) = config s.
Proof.
  revert s. induction schedule as [|i rest IH]; intros s; cbn; [reflexivity |].
  now rewrite IH, complete_config.
Qed.

(** A step of chain [i] leaves every other chain as it was. *)
Lemma complete_frame env i j s :
  j <> i -> branches (complete env i s) !! j = branches s !! j.
Proof.
  intros Hne. unfold complete, on_done, resolve.
  repeat case_match; cbn; rewrite ?list_lookup_insert_ne by congruence; reflexivity.
Qed.


Lemma after_nil st : after st [] = st.
Proof. unfold after. rewrite app_nil_r. now destruct st. Qed.

Lemma after_after st a b : after (after st a) b = after st (a ++ b).
Proof. unfold after. cbn. now rewrite app_assoc. Qed.

Lemma record_after e st : record e st = after st [e].
Proof. reflexivity. Qed.

Ltac store_simpl :=
  repeat (rewrite ?record_after, ?after_after, ?after_nil; cbn [app]).

Lemma request_stage_events env project st :
  request_stage env project st
  = (requested env project (global_file st),
     after st (request_events env project (global_file st))).
Proof.
  unfold request_stage, requested, request_events, bind. rewrite getConfig_loaded.
  destruct (loaded (global_file st)) as [c|e]; [| now rewrite after_nil].
  unfold send_create_repo, bind, lift, cli_info, emit, ret.
  destruct (create_repo_request _ _ c) as [req|e]; now store_simpl.
Qed.

Lemma command_stage_events env project token c st :
  command_stage env project token c st
  = (match formatCommand token c with Ok _ => Ok tt | Err e => Err e end,
     after st (command_events env project token c)).
Proof.
  unfold command_stage, command_events, bind, lift, exec, emit.
  destruct (formatCommand token c); now store_simpl.
Qed.

(** The sequential reading of a chain: its outcome and its events. *)
Lemma chain_events_sequential env cfg project st :
  chain env cfg project st
  = (chain_result env (global_file st) cfg project,
     after st (Shell (copy_command env cfg project)
                 :: chain_events env (global_file st) cfg project)).
Proof.
  unfold chain, chain_result, chain_events, execAsync, getAddRemoteCommand, bind, emit.
  destruct (shell_exit env _); [reflexivity |]. unfold ret.
  rewrite getConfig_loaded. unfold requested, request_events. rewrite global_file_record.
  destruct (loaded (global_file st)) as [c|e]; [| reflexivity].
  unfold makeURLToken, postCreateRepo, post_create_repo, send_create_repo,
    bind, lift, cli_info, emit, ret.
  destruct (create_repo_request _ _ c) as [req|e]; [| now store_simpl].
  destruct (http_response env req) as [token|e]; [| now store_simpl].
  unfold exec, emit, command_events.
  destruct (formatCommand token c); now store_simpl.
Qed.

Lemma request_stage_requested env project st :
  fst (request_stage env project st) = requested env project (global_file st) /\
  global_file (snd (request_stage env project st)) = global_file st.
Proof. now rewrite request_stage_events. Qed.


Lemma command_stage_formatted env project token c st :
  fst (command_stage env project token c st)
  = match formatCommand token c with Ok _ => Ok tt | Err e => Err e end /\
  global_file (snd (command_stage env project token c st)) = global_file st.
Proof. now rewrite command_stage_events. Qed.

Lemma complete_global_file env i s :
  global_file (store (complete env i s)) = global_file (store s).
Proof.
  unfold complete, on_done, resolve.
  repeat case_match; cbn; try reflexivity;
    repeat match goal with
      | H : request_stage env ?p ?st = _ |- _ =>
          let E := fresh in
          pose proof (proj2 (request_stage_requested env p st)) as E;
          rewrite H in E; clear H
      | H : command_stage env ?p ?t ?c ?st = _ |- _ =>
          let E := fresh in
          pose proof (proj2 (command_stage_formatted env p t c st)) as E;
          rewrite H in E; clear H
      end; assumption.
Qed.

Lemma chain_chain_result env cfg project st :
  fst (chain env cfg project st) = chain_result env (global_file st) cfg project.
Proof. now rewrite chain_events_sequential. Qed.

(** With a [cli.info] that returns a falsy value no step touches the promise. *)
Lemma complete_promise_falsy env i s :
  truthy (cli_info_result env) = false -> promise (complete env i s) = promise s.
Proof.
  intros H. unfold complete, on_done. rewrite H. repeat case_match; reflexivity.
Qed.

Lemma run_promise_falsy env schedule s :
  truthy (cli_info_result env) = false -> promise (run env schedule s) = promise s.
Proof.
  intros H. revert s. induction schedule as [|i rest IH]; intros s; cbn; [reflexivity |].
  now rewrite IH, complete_promise_falsy.
Qed.

(** ** The split workflow: the promise follows the last chain *)

Lemma set_branch_settled env i b0 b st s :
  settled_right env s -> branches s !! i = Some b0 -> b0 <> Done -> b <> Done ->
  settled_right env (set_branch i b st s).
Proof.
  intros [Hlen Hp] Hb Hb0 Hnew. split; cbn; [now rewrite length_insert |].
  change (last_index (set_branch i b st s)) with (last_index s).
  destruct (decide (i = last_index s)) as [-> | Hne].
  - destruct (promise s); [| congruence | exact Hp].
    intros _. rewrite list_lookup_insert_eq by (eapply lookup_lt_Some; eauto). congruence.
  - rewrite list_lookup_insert_ne by exact Hne. exact Hp.
Qed.

Lemma on_done_settled env i project b0 st s :
  settled_right env s -> branches s !! i = Some b0 -> b0 <> Done ->
  settled_right env (on_done env i project (set_branch i Done st s)).
Proof.
  intros [Hlen Hp] Hb Hb0.
  assert (Hi : i < length (branches s)) by (eapply lookup_lt_Some; eauto).
  unfold on_done. cbn [config set_branch]. rewrite folders_length.
  fold (last_index s).
  destruct (decide (i = last_index s)) as [-> | Hne].
  - assert (Hpend : promise s = Pending).
    { destruct (promise s); [reflexivity | congruence | contradiction]. }
    destruct (truthy (cli_info_result env)) eqn:Htruthy.
    + unfold resolve. cbn. rewrite Hpend. split; cbn; [now rewrite length_insert |].
      now apply list_lookup_insert_eq.
    + split; cbn; [now rewrite length_insert |]. rewrite Hpend. congruence.
  - split; cbn; [now rewrite length_insert |].
    change (last_index _) with (last_index s).
    rewrite list_lookup_insert_ne by exact Hne. exact Hp.
Qed.

Lemma complete_settled_right env i s :
  settled_right env s -> settled_right env (complete env i s).
Proof.
  intros Hs. unfold complete.
  destruct (folders (config s) !! i) as [project|] eqn:Hproj; [| exact Hs].
  destruct (branches s !! i) as [b|] eqn:Hb; [| exact Hs].
  destruct b; try exact Hs; repeat case_match;
    first [ eapply set_branch_settled; [exact Hs | exact Hb | discriminate | discriminate]
          | eapply on_done_settled; [exact Hs | exact Hb | discriminate] ].
Qed.

Lemma run_settled_right env schedule s :
  settled_right env s -> settled_right env (run env schedule s).
Proof.
  revert s. induction schedule as [|i rest IH]; intros s Hs; cbn; [exact Hs |].
  apply IH. now apply complete_settled_right.
Qed.

Lemma splitByConfig_settled_right env st s0 :
  splitByConfig env st = Running s0 -> config s0 <> [] -> settled_right env s0.
Proof.
  intros H Hne. destruct (splitByConfig_running env st s0 H) as (Hb & _ & Hp).
  split; [now rewrite Hb, length_map, folders_length |].
  rewrite (Hp Hne). intros _. rewrite Hb.
  rewrite lookup_map_const; [discriminate |].
  rewrite folders_length. unfold last_index. destruct (config s0); cbn; [congruence | lia].
Qed.

Lemma split_promise_cases env st s0 schedule :
  splitByConfig env st = Running s0 -> config s0 <> [] ->
  (promise (run env schedule s0) = Resolved ->
   branches (run env schedule s0) !! last_index s0 = Some Done) /\
  (forall e, promise (run env schedule s0) <> Rejected e) /\
  (truthy (cli_info_result env) = true ->
   branches (run env schedule s0) !! last_index s0 = Some Done ->
   promise (run env schedule s0) = Resolved).
Proof.
  intros Hstart Hne.
  pose proof (run_settled_right env schedule s0
                (splitByConfig_settled_right env st s0 Hstart Hne)) as [_ Hp].
  unfold last_index in Hp. rewrite run_config in Hp. fold (last_index s0) in Hp.
  repeat split.
  - intros Hr. now rewrite Hr in Hp.
  - intros e He. now rewrite He in Hp.
  - intros Ht Hd. destruct (promise _); [now apply Hp in Ht | reflexivity | contradiction].
Qed.

(** C6.  For an [rnplay] block without entries, [splitByConfig] starts
    no chain, no step changes anything, and the promise stays pending
    under every schedule: [resolve] is never called. *)
Theorem split_of_nothing env st pkg :
  package_json env = Ok pkg -> rnplay pkg = Some [] ->
  exists s0,
    splitByConfig env st = Running s0 /\
    forall schedule, run env schedule s0 = s0 /\ promise (run env schedule s0) = Pending.
Proof.
  intros Hpkg Hr. unfold splitByConfig, processRNPlayConfig, getPackageConfig.
  rewrite Hpkg, Hr. cbn. eexists. split; [reflexivity |].
  assert (H : forall schedule, run env schedule (mkSplit [] [] Pending st)
                               = mkSplit [] [] Pending st).
  { induction schedule as [|i rest IH]; [reflexivity | exact IH]. }
  intros schedule. now rewrite H.
Qed.

Lemma split_of_nothing_witness :
  exists s0,
    splitByConfig nothing_to_split signed_in = Running s0 /\
    forall schedule,
      run nothing_to_split schedule s0 = s0 /\
      promise (run nothing_to_split schedule s0) = Pending.
Proof.
  apply (split_of_nothing nothing_to_split signed_in (mkPackage (Some "demo") (Some [])));
    reflexivity.
Defined.




(** ** The split workflow: a last chain that is rejected *)

Section LastChainRejected.
Variable env : Env.
Variable contents : option string.
Variable cfg : list (string * string).
Variable project : string.
Variable e : JsError.
Hypothesis Hproject : folders cfg !! (length cfg - 1) = Some project.
Hypothesis Hrejects : chain_result env contents cfg project = Err e.



End LastChainRejected.






Lemma store_on_done env i project s :
  store (on_done env i project s)
  = after (store s) [Log LInfo (done_message env s i project)].
Proof.
  unfold on_done, done_message, resolve, info, last_index. rewrite folders_length.
  repeat case_match; reflexivity.
Qed.

Lemma branches_on_done env i project s :
  branches (on_done env i project s) = branches s.
Proof. unfold on_done, resolve, info. repeat case_match; reflexivity. Qed.







(** ** A global configuration that is missing or malformed *)






(** * The rest of the two programs

    The entry point, authenticate, the stages of create and what they
    leave behind, the request, and split as a whole. *)

(** ** The entry point *)

Lemma fold_truthy options keys prev :
  truthy prev = true ->
  fold_left (fun prev key => if truthy prev then prev else and_key options key) keys prev
  = prev.
Proof.
  intros H. induction keys as [|k keys IH]; [reflexivity |]. cbn. now rewrite H.
Qed.

Lemma and_key_truthy options key :
  truthy (and_key options key)
  = truthy (lookup_prop key options) && negb (String.eqb key "").
Proof.
  unfold and_key. destruct (truthy (lookup_prop key options)) eqn:H.
  - now destruct key.
  - now rewrite H.
Qed.

Lemma fold_first options keys prev :
  truthy prev = false ->
  let f := fun key => truthy (lookup_prop key options) && negb (String.eqb key "") in
  let r := fold_left (fun prev key => if truthy prev then prev else and_key options key)
             keys prev in
  match find f keys with
  | Some k => r = Some (JStr k)
  | None => truthy r = false /\
            r = match last keys with Some k => and_key options k | None => prev end
  end.
Proof.
  revert prev. induction keys as [|k keys IH]; intros prev Hp f r.
  - cbn. split; [exact Hp | reflexivity].
  - subst r. cbn [fold_left find]. rewrite Hp.
    pose proof (and_key_truthy options k) as Hk. fold (f k) in Hk.
    destruct (f k) eqn:Hf.
    + rewrite fold_truthy by exact Hk.
      unfold and_key. unfold f in Hf. apply andb_prop in Hf as [-> _]. reflexivity.
    + specialize (IH (and_key options k) Hk). cbv zeta in IH. fold f in IH.
      destruct (find f keys); [exact IH |].
      destruct IH as [IH1 IH2]. split; [exact IH1 |].
      rewrite IH2. destruct keys as [|k' keys]; [reflexivity |].
      change (last (k :: k' :: keys)) with (last (k' :: keys)).
      destruct (last (k' :: keys)) eqn:Hl; [reflexivity |].
      now apply last_None in Hl.
Qed.

(** [getFirstTrueOption] returns the first key, in key order, whose
    value is truthy, where an empty key never counts.  When there is no
    such key what it returns is falsy, and it is not always [null]: it
    is the value of the last option, [null] only when there is no
    option at all. *)
Theorem getFirstTrueOption_first options :
  match first_true options with
  | Some k => getFirstTrueOption options = Some (JStr k)
  | None =>
      truthy (getFirstTrueOption options) = false /\
      getFirstTrueOption options
      = match last (map fst options) with
        | Some k => and_key options k
        | None => Some JNull
        end
  end.
Proof. apply (fold_first options (map fst options) (Some JNull)). reflexivity. Qed.

Lemma long_name_inj f g : long_name f = long_name g -> f = g.
Proof. destruct f, g; cbn; congruence. Qed.

Lemma lookup_prop_parsed options f :
  NoDup (map fst options) ->
  lookup_prop (long_name f) (parsed options)
  = snd <$> find (fun fv => bool_decide (fst fv = f)) options.
Proof.
  induction options as [|[g v] options IH]; intros Hnd; [reflexivity |].
  cbn. destruct (decide (long_name f = long_name g)) as [Heq | Hne].
  - apply long_name_inj in Heq as ->. now rewrite bool_decide_eq_true_2.
  - rewrite bool_decide_eq_false_2 by congruence. apply IH. now inversion Hnd.
Qed.

Lemma lookup_prop_parsed_elem options f v :
  NoDup (map fst options) -> (f, v) ∈ options ->
  lookup_prop (long_name f) (parsed options) = Some v.
Proof.
  intros Hnd Hfv. rewrite lookup_prop_parsed by exact Hnd.
  induction options as [|[g w] options IH]; [inversion Hfv |].
  cbn. inversion Hnd as [|? ? Hg Hnd']; subst.
  destruct (decide (g = f)) as [-> | Hne].
  - rewrite bool_decide_eq_true_2 by reflexivity. cbn.
    apply elem_of_cons in Hfv as [[= ->] | Hfv]; [reflexivity |].
    exfalso. apply Hg. apply list_elem_of_fmap. now exists (f, v).
  - rewrite bool_decide_eq_false_2 by exact Hne.
    apply elem_of_cons in Hfv as [[= -> ->] | Hfv]; [congruence | now apply IH].
Qed.

Lemma find_parsed all options :
  (forall f v, (f, v) ∈ options -> lookup_prop (long_name f) all = Some v) ->
  find (fun key => truthy (lookup_prop key all) && negb (String.eqb key ""))
    (map fst (parsed options))
  = long_name <$> first_flag options.
Proof.
  unfold first_flag. induction options as [|[f v] options IH]; intros Hin; [reflexivity |].
  cbn [map fst find parsed]. cbn [fst snd].
  rewrite (Hin f v) by apply list_elem_of_here.
  assert (Hname : negb (String.eqb (long_name f) "") = true) by now destruct f.
  rewrite Hname, andb_true_r.
  destruct (truthy (Some v)); [reflexivity |].
  apply IH. intros g w Hgw. apply Hin. now apply list_elem_of_further.
Qed.

Lemma first_true_parsed options :
  NoDup (map fst options) ->
  first_true (parsed options) = long_name <$> first_flag options.
Proof.
  intros Hnd. apply find_parsed. intros f v. now apply lookup_prop_parsed_elem.
Qed.

Lemma getFirstTrueOption_parsed options :
  NoDup (map fst options) ->
  match first_flag options with
  | Some f => getFirstTrueOption (parsed options) = Some (JStr (long_name f))
  | None => truthy (getFirstTrueOption (parsed options)) = false
  end.
Proof.
  intros Hnd.
  pose proof (fold_first (parsed options) (map fst (parsed options)) (Some JNull) eq_refl)
    as H.
  cbv zeta in H. fold (getFirstTrueOption (parsed options)) in H.
  fold (first_true (parsed options)) in H.
  rewrite first_true_parsed in H by exact Hnd.
  destruct (first_flag options); [exact H | apply H].
Qed.

(** No falsy value names an action. *)
Lemma falsy_names_no_action env v :
  truthy v = false ->
  actionMap env (val_to_string v) = None /\ ACTION_MAP env (val_to_string v) = None.
Proof.
  destruct v as [[| [|] | [| |] | [|] | |]|]; cbn; try discriminate; intros _;
    split; reflexivity.
Qed.

Lemma cli_main_dispatch env map options st :
  map = actionMap env \/ map = ACTION_MAP env ->
  NoDup (List.map fst options) ->
  cli_main map options st
  = match first_flag options with
    | Some f => perform map f st
    | None => Usage st
    end.
Proof.
  intros Hmap Hnd. unfold cli_main, perform.
  pose proof (getFirstTrueOption_parsed options Hnd) as H.
  destruct (first_flag options) as [f|]; [now rewrite H |].
  destruct (falsy_names_no_action env _ H) as [H1 H2].
  destruct Hmap as [-> | ->]; [now rewrite H1 | now rewrite H2].
Qed.

(** The callback of [cli.main] runs at most one workflow: that of the
    first flag, in the key order of the options, whose value is truthy,
    whatever the flags after it; with no truthy flag it prints the usage
    and does nothing else.  In the older program [split] names no
    action. *)
Theorem cli_main_first_flag env options st :
  NoDup (map fst options) ->
  cli_main (ACTION_MAP env) options st
  = match first_flag options with
    | None => Usage st
    | Some authenticate => Ran (main (Rewrite.createConfig env) st)
    | Some create => Ran (main (Rewrite.createGitRepo env) st)
    | Some open => Ran (main (Rewrite.openAppInBrowser env) st)
    | Some split => Splitting (Rewrite.splitByConfig env st)
    end /\
  cli_main (actionMap env) options st
  = match first_flag options with
    | None | Some split => Usage st
    | Some authenticate => Ran (main (Legacy.createConfig env) st)
    | Some create => Ran (main (Legacy.createGitRepo env) st)
    | Some open => Ran (main Legacy.openAppInBrowser st)
    end.
Proof.
  intros Hnd. rewrite !(cli_main_dispatch env) by auto.
  destruct (first_flag options) as [[]|]; split; reflexivity.
Qed.

Lemma cli_main_first_flag_witness :
  cli_main (ACTION_MAP fair_env)
    [(open, JNull); (create, JBool true); (authenticate, JNull); (split, JBool true)]
    signed_in
  = Ran (main (Rewrite.createGitRepo fair_env) signed_in) /\
  cli_main (actionMap fair_env)
    [(open, JNull); (create, JBool true); (authenticate, JNull); (split, JBool true)]
    signed_in
  = Ran (main (Legacy.createGitRepo fair_env) signed_in).
Proof.
  apply (cli_main_first_flag fair_env
           [(open, JNull); (create, JBool true); (authenticate, JNull); (split, JBool true)]
           signed_in).
  apply (bool_decide_unpack _). vm_compute. exact I.
Defined.

(** ** The authenticate workflow *)

Lemma Legacy_createConfig_run env st :
  Legacy.createConfig env st
  = match stdin_token env with
    | Err e => (Err e, st)
    | Ok token =>
        match stdin_email env with
        | Err e => (Err e, st)
        | Ok email =>
            match write_error env GlobalConfigFile with
            | Some e => (Err e, st)
            | None =>
                (Ok tt,
                 record (Log LOk "Saved config to ~/.rnplay")
                   (record (FileWrite GlobalConfigFile (saved_config token email))
                      (write GlobalConfigFile (saved_config token email) st)))
            end
        end
    end.
Proof.
  unfold Legacy.createConfig, Legacy.saveConfig, Legacy.CONFIG_FILE_PATH,
    save_config_file, writeFileAsync, readTokenFromCLI, readEmailFromCLI, cli_ok,
    bind, lift, emit.
  destruct (stdin_token env); [| reflexivity].
  destruct (stdin_email env); [| reflexivity].
  destruct (write_error env GlobalConfigFile); reflexivity.
Qed.

Lemma loaded_saved_config token email :
  loaded (Some (saved_config token email))
  = if truthy (Some (JStr email)) && truthy (Some (JStr token))
    then Ok (credentials token email) else Err InvalidConfig.
Proof.
  unfold loaded, saved_config. rewrite parse_credentials.
  unfold lacks_credentials, credentials. cbn [get_prop lookup_prop].
  repeat case_decide; try congruence.
  destruct (truthy (Some (JStr email))); [| reflexivity].
  destruct (truthy (Some (JStr token))); reflexivity.
Qed.

Lemma Legacy_openAppInBrowser_run st :
  Legacy.openAppInBrowser st
  = match global_file st with
    | None => (Err ConfigMissingOrCorrupt, st)
    | Some text =>
        match parse text with
        | None => (Err ConfigMissingOrCorrupt, st)
        | Some conf =>
            match get_prop conf "urlToken" with
            | Err e => (Err e, st)
            | Ok urlToken =>
                (Ok tt,
                 record (if truthy urlToken
                         then Browser (Legacy.RN_PLAY_APP_URL +:+ val_to_string urlToken)
                         else Log LError legacy_create_first) st)
            end
        end
    end.
Proof.
  unfold Legacy.openAppInBrowser, Legacy.readConfig, Legacy.CONFIG_FILE_PATH,
    read_config_file, readFileAsync, JSON_parse, catch, bind, lift. cbn [read].
  destruct (global_file st) as [text|]; [| reflexivity].
  destruct (parse text) as [conf|]; [| reflexivity]. cbn.
  destruct (get_prop conf "urlToken") as [urlToken|]; [| reflexivity].
  destruct (truthy urlToken); reflexivity.
Qed.

(** The older program's authenticate, when both prompts are answered
    and the write goes through: [~/.rnplay] then holds exactly
    [{token, email}], whatever it held before, so a url token stored
    there by an earlier create is gone and [open] asks to create first;
    and nothing is checked: an empty answer is saved as it is and it is
    [create] that then rejects the configuration as invalid. *)
Theorem Legacy_authenticate env st token email :
  stdin_token env = Ok token -> stdin_email env = Ok email ->
  write_error env GlobalConfigFile = None ->
  exists st',
    Legacy.createConfig env st = (Ok tt, st') /\
    trace st' = trace st ++ [FileWrite GlobalConfigFile (saved_config token email);
                             Log LOk "Saved config to ~/.rnplay"] /\
    local_file st' = local_file st /\
    Legacy.readConfig st' = (Ok (credentials token email), st') /\
    Legacy.openAppInBrowser st' = (Ok tt, record (Log LError legacy_create_first) st') /\
    (token = "" \/ email = "" ->
     forall env', Legacy.createGitRepo env' st' = (Err InvalidConfig, st')).
Proof.
  intros Ht He Hw. rewrite Legacy_createConfig_run, Ht, He, Hw.
  eexists. split; [reflexivity |].
  split; [cbn; now rewrite <- app_assoc |].
  split; [reflexivity |].
  split; [| split].
  - unfold Legacy.readConfig.
    eapply read_config_file_parsed; [reflexivity | apply parse_credentials].
  - rewrite Legacy_openAppInBrowser_run. cbn [global_file record write].
    unfold saved_config. rewrite parse_credentials. reflexivity.
  - intros Hempty env'. apply Legacy_createGitRepo_rejected.
    cbn [global_file record write]. rewrite loaded_saved_config.
    destruct Hempty as [-> | ->]; [| reflexivity].
    now destruct (truthy (Some (JStr email))).
Qed.

Lemma Legacy_authenticate_witness :
  exists st',
    Legacy.createConfig silent_env signed_in = (Ok tt, st') /\
    trace st' = trace signed_in ++ [FileWrite GlobalConfigFile (saved_config "" "");
                                    Log LOk "Saved config to ~/.rnplay"] /\
    local_file st' = local_file signed_in /\
    Legacy.readConfig st' = (Ok (credentials "" ""), st') /\
    Legacy.openAppInBrowser st' = (Ok tt, record (Log LError legacy_create_first) st') /\
    ("" = "" \/ "" = "" ->
     forall env', Legacy.createGitRepo env' st' = (Err InvalidConfig, st')).
Proof.
  apply (Legacy_authenticate silent_env signed_in "" ""); reflexivity.
Defined.

(** The rewrite's authenticate does all or nothing: when it is rejected
    (a prompt was aborted, or the write failed) no file has been written
    and no confirmation printed, and the error is that of the prompt or
    of the write. *)
Theorem createConfig_all_or_nothing env st e st' :
  Rewrite.createConfig env st = (Err e, st') ->
  st' = st /\
  (stdin_token env = Err e \/ stdin_email env = Err e \/
   write_error env GlobalConfigFile = Some e).
Proof.
  unfold Rewrite.createConfig, Rewrite.saveConfig, save_config_file, writeFileAsync,
    readTokenFromCLI, readEmailFromCLI, cli_ok, bind, lift, emit.
  destruct (stdin_token env); [| intros [= <- <-]; auto].
  destruct (stdin_email env); [| intros [= <- <-]; auto].
  destruct (write_error env GlobalConfigFile); [| discriminate].
  intros [= <- <-]. auto.
Qed.

Lemma createConfig_all_or_nothing_witness :
  Rewrite.createConfig aborted_env signed_in = (Err (Error "canceled"), signed_in) /\
  signed_in = signed_in /\
  (stdin_token aborted_env = Err (Error "canceled") \/
   stdin_email aborted_env = Err (Error "canceled") \/
   write_error aborted_env GlobalConfigFile = Some (Error "canceled")).
Proof.
  split; [reflexivity |].
  apply (createConfig_all_or_nothing aborted_env signed_in (Error "canceled") signed_in).
  reflexivity.
Defined.

(** The rewrite's authenticate, when both prompts are answered and the
    write goes through: the global configuration then holds exactly
    [{token, email}], and [getConfig] accepts it exactly when neither
    answer is empty (nothing is checked when it is saved).  The local
    configuration is not touched: what [open] did before, it still
    does. *)
Theorem Rewrite_authenticate env st token email :
  stdin_token env = Ok token -> stdin_email env = Ok email ->
  write_error env GlobalConfigFile = None ->
  exists st',
    createConfig env st = (Ok tt, st') /\
    st' = after (write GlobalConfigFile (saved_config token email) st)
            [FileWrite GlobalConfigFile (saved_config token email);
             Log LOk "Saved config to ~/.rnplay"] /\
    getConfig st'
    = (if truthy (Some (JStr email)) && truthy (Some (JStr token))
       then Ok (credentials token email) else Err InvalidConfig, st') /\
    fst (openAppInBrowser env st') = fst (openAppInBrowser env st).
Proof.
  intros Ht He Hw.
  unfold createConfig, saveConfig, save_config_file, writeFileAsync,
    readTokenFromCLI, readEmailFromCLI, cli_ok, bind, lift, emit.
  rewrite Ht, He, Hw. fold (saved_config token email).
  eexists. split; [reflexivity |]. split; [now store_simpl |]. split.
  - rewrite getConfig_loaded. cbn [global_file record write].
    match goal with
    | |- context [loaded (Some ?x)] =>
        change (loaded (Some x)) with (loaded (Some (saved_config token email)))
    end.
    now rewrite loaded_saved_config.
  - rewrite !openAppInBrowser_opening. cbn [local_file record write].
    now destruct (opening env (local_file st)).
Qed.

Lemma Rewrite_authenticate_witness :
  exists st',
    createConfig fair_env visited = (Ok tt, st') /\
    st' = after (write GlobalConfigFile (saved_config "t" "e") visited)
            [FileWrite GlobalConfigFile (saved_config "t" "e");
             Log LOk "Saved config to ~/.rnplay"] /\
    getConfig st'
    = (if truthy (Some (JStr "e")) && truthy (Some (JStr "t"))
       then Ok (credentials "t" "e") else Err InvalidConfig, st') /\
    fst (openAppInBrowser fair_env st') = fst (openAppInBrowser fair_env visited).
Proof.
  apply (Rewrite_authenticate fair_env visited "t" "e"); reflexivity.
Defined.

(** ** Create, then open *)

(** Once the service has answered and the local configuration file is
    written, the rewrite's create leaves the url token behind although
    it ends rejected, by the git command or after it: nothing is rolled
    back, and [open] then opens the page of the application (it asks to
    create first if the service answered with an empty token). *)
Theorem create_then_open env st contents conf pkg c n email token urlToken :
  global_file st = Some contents -> parse contents = Some conf ->
  get_prop conf "email" = Ok email -> get_prop conf "token" = Ok token ->
  truthy email = true -> truthy token = true ->
  package_json env = Ok pkg -> name pkg = Some (String c n) ->
  http_response env (create_request env (String c n) email token) = Ok urlToken ->
  write_error env LocalConfigFile = None ->
  exists e st',
    createGitRepo env st = (Err e, st') /\
    local_file st' = Some (local_config urlToken) /\
    openAppInBrowser env st'
    = (Ok tt,
       record (if truthy (Some (JStr urlToken))
               then Browser (RNPLAY_APP_URL env +:+ urlToken)
               else Log LError create_first) st').
Proof.
  intros Hf Hp He Ht Hte Htt Hpkg Hname Hresp Hw.
  pose proof (createGitRepo_run env st contents conf pkg c n email token
                Hf Hp He Ht Hte Htt Hpkg Hname) as Hrun.
  cbv zeta in Hrun. rewrite Hresp, Hw in Hrun.
  set (st2 := record (Shell (add_remote token urlToken)) _) in Hrun.
  assert (Hloc : local_file st2 = Some (local_config urlToken)) by reflexivity.
  assert (Hopen : openAppInBrowser env st2
                  = (Ok tt,
                     record (if truthy (Some (JStr urlToken))
                             then Browser (RNPLAY_APP_URL env +:+ urlToken)
                             else Log LError create_first) st2)).
  { rewrite openAppInBrowser_opening. unfold opening.
    rewrite Hloc, parse_local_config. cbn [get_prop lookup_prop].
    rewrite decide_True by reflexivity. reflexivity. }
  destruct (shell_exit env (add_remote token urlToken)); eexists _, st2; eauto.
Qed.

Lemma create_then_open_witness :
  exists e st',
    createGitRepo no_shell_env signed_in = (Err e, st') /\
    local_file st' = Some (local_config "abc123") /\
    openAppInBrowser no_shell_env st'
    = (Ok tt, record (Browser "https://rnplay.org/apps/abc123") st').
Proof.
  apply (create_then_open no_shell_env signed_in
           (stringify (credentials "t" "e") +:+ newline) (credentials "t" "e")
           demo_package "d" "emo" (Some (JStr "e")) (Some (JStr "t")) "abc123");
    vm_compute; reflexivity.
Defined.





(** ** Configurations of strings *)

Lemma value_then_comma fuel k acc v r :
  value_then fuel k acc (v, String "," r) = parse_members fuel r (set_prop k v acc).
Proof. reflexivity. Qed.

Lemma value_then_close fuel k acc v r :
  value_then fuel k acc (v, String "}" r) = Some (set_prop k v acc, r).
Proof. reflexivity. Qed.

Lemma replace_prop_None k v props :
  k ∉ map fst props -> replace_prop k v props = None.
Proof.
  induction props as [|[k' v'] props IH]; intros Hk; [reflexivity |].
  cbn. cbn in Hk. apply not_elem_of_cons in Hk as [Hne Hk].
  rewrite decide_False by exact Hne. now rewrite IH.
Qed.

Lemma set_prop_new k v props :
  k ∉ map fst props -> array_index k = None -> set_prop k v props = props ++ [(k, v)].
Proof. intros Hk Hi. unfold set_prop. now rewrite replace_prop_None, Hi. Qed.

Lemma fold_set_prop props acc :
  NoDup (map fst (acc ++ props)) ->
  Forall (fun kv => array_index (fst kv) = None) props ->
  fold_left (fun acc kv => set_prop (fst kv) (snd kv) acc) props acc = acc ++ props.
Proof.
  revert acc. induction props as [|[k v] props IH]; intros acc Hnd Hidx.
  - now rewrite app_nil_r.
  - cbn [fold_left fst snd]. inversion Hidx as [|? ? Hk Hidx']; subst. cbn in Hk.
    assert (Hnew : k ∉ map fst acc).
    { rewrite map_app in Hnd. apply NoDup_app in Hnd as (_ & Hd & _).
      intros Hin. apply (Hd k Hin). cbn. apply list_elem_of_here. }
    rewrite set_prop_new by assumption.
    rewrite IH; [now rewrite <- app_assoc | now rewrite <- app_assoc | exact Hidx'].
Qed.

Lemma parse_members_strings props rest acc fuel :
  Forall (fun kv => exists s, snd kv = JStr s) props ->
  0 < length props <= fuel ->
  parse_members (S fuel) (members_text props rest) acc
  = Some (fold_left (fun acc kv => set_prop (fst kv) (snd kv) acc) props acc, rest).
Proof.
  revert acc fuel. induction props as [|[k v] props IH]; intros acc fuel Hs Hlen.
  - cbn in Hlen. lia.
  - inversion Hs as [|? ? [s Hv] Hs']; subst. cbn in Hv. subst v.
    destruct fuel as [|fuel]; [cbn in Hlen; lia |].
    destruct props as [|kv' props].
    + cbn [members_text to_string]. rewrite parse_member, value_then_close. reflexivity.
    + change (members_text ((k, JStr s) :: kv' :: props) rest)
        with (quoted_then k (String ":" (quoted_then s
                (String "," (members_text (kv' :: props) rest))))).
      rewrite parse_member, value_then_comma.
      rewrite IH; [reflexivity | exact Hs' | cbn in *; lia].
Qed.

Lemma join_cons sep x y l : join sep (x :: y :: l) = x +:+ sep +:+ join sep (y :: l).
Proof. reflexivity. Qed.

Lemma stringify_members props rest :
  Forall (fun kv => exists s, snd kv = JStr s) props -> props <> [] ->
  join "," (map (fun kv => quote (fst kv) +:+ ":" +:+ stringify (snd kv)) props)
    +:+ String "}" rest
  = members_text props rest.
Proof.
  induction props as [|[k v] props IH]; intros Hs Hne; [congruence |].
  inversion Hs as [|? ? [s Hv] Hs']; subst. cbn in Hv. subst v.
  destruct props as [|kv' props].
  - cbn [map join fst snd members_text to_string stringify]. flatten_text. reflexivity.
  - cbn [map]. rewrite join_cons. cbn [fst snd stringify].
    change (members_text ((k, JStr s) :: kv' :: props) rest)
      with (quoted_then k (String ":" (quoted_then s
              (String "," (members_text (kv' :: props) rest))))).
    rewrite <- IH by (exact Hs' || discriminate).
    cbn [map]. flatten_text. reflexivity.
Qed.

Lemma members_text_length props rest :
  length props <= String.length (members_text props rest).
Proof.
  induction props as [|[k v] props IH]; [cbn; lia |].
  destruct props as [|kv' props].
  - cbn. lia.
  - change (members_text ((k, v) :: kv' :: props) rest)
      with (quoted_then k (String ":" (quoted_then (to_string v)
              (String "," (members_text (kv' :: props) rest))))).
    unfold quoted_then. cbn [String.length]. rewrite !append_length.
    cbn [String.length]. rewrite !append_length. cbn [String.length].
    cbn [length] in *. lia.
Qed.

(** A plain object, printed and followed by a newline, parses back. *)
Lemma parse_plain props :
  plain props -> parse (stringify (JObj props) +:+ newline) = Some (JObj props).
Proof.
  intros (Hs & Hnd & Hidx). destruct props as [|kv props]; [reflexivity |].
  unfold parse. cbn [stringify]. rewrite !append_assoc, append_cons, append_nil_l.
  change ("}" +:+ newline) with (String "}" newline).
  rewrite stringify_members by (exact Hs || discriminate).
  set (text := members_text (kv :: props) newline).
  pose proof (members_text_length (kv :: props) newline) as Hlen. fold text in Hlen.
  cbn [String.length].
  assert (Hfuel : 2 * S (String.length text) + 2 = S (S (2 * String.length text + 2))) by lia.
  rewrite Hfuel.
  assert (Hobj : forall fuel,
            parse_value (S fuel) (String "{" text)
            = parse_members fuel text [] ≫= (fun '(props, rest) => Some (JObj props, rest))).
  { intros fuel. unfold text. destruct kv as [k v].
    destruct props as [|kv' props]; apply parse_object. }
  rewrite Hobj. clear Hobj. subst text.
  rewrite parse_members_strings; [| exact Hs | cbn [length] in *; lia].
  rewrite (fold_set_prop (kv :: props) []) by assumption. reflexivity.
Qed.

Lemma replace_prop_spec k v props :
  match replace_prop k v props with
  | Some props' =>
      map fst props' = map fst props /\
      lookup_prop k props' = Some v /\
      forall P : string * json -> Prop, P (k, v) -> Forall P props -> Forall P props'
  | None => k ∉ map fst props
  end.
Proof.
  induction props as [|[k' v'] props IH]; cbn.
  - apply not_elem_of_nil.
  - destruct (decide (k = k')) as [<- | Hne].
    + split; [reflexivity |]. split; [cbn; now rewrite decide_True |].
      intros P Hkv HP. inversion HP; subst. now constructor.
    + destruct (replace_prop k v props) as [props'|].
      * destruct IH as (Hkeys & Hlook & HP). split; [cbn; now rewrite Hkeys |].
        split; [cbn; now rewrite decide_False |].
        intros P Hkv HPs. inversion HPs; subst. constructor; auto.
      * apply not_elem_of_cons. auto.
Qed.

Lemma lookup_prop_new k v props :
  k ∉ map fst props -> lookup_prop k (props ++ [(k, v)]) = Some v.
Proof.
  induction props as [|[k' v'] props IH]; cbn; intros Hk.
  - now rewrite decide_True.
  - apply not_elem_of_cons in Hk as [Hne Hk]. rewrite decide_False by exact Hne. auto.
Qed.

Lemma lookup_prop_set_prop_same k v props :
  array_index k = None -> lookup_prop k (set_prop k v props) = Some v.
Proof.
  intros Hi. unfold set_prop. pose proof (replace_prop_spec k v props) as H.
  destruct (replace_prop k v props) as [props'|]; [apply H |].
  rewrite Hi. now apply lookup_prop_new.
Qed.

Lemma plain_set_prop k s props :
  array_index k = None -> plain props -> plain (set_prop k (JStr s) props).
Proof.
  intros Hi (Hs & Hnd & Hidx). unfold set_prop.
  pose proof (replace_prop_spec k (JStr s) props) as H.
  destruct (replace_prop k (JStr s) props) as [props'|].
  - destruct H as (Hkeys & _ & HP). split; [| split].
    + apply HP; [cbn; eauto | exact Hs].
    + now rewrite Hkeys.
    + apply HP; [exact Hi | exact Hidx].
  - rewrite Hi. split; [| split].
    + apply Forall_app. split; [exact Hs |]. constructor; [cbn; eauto | constructor].
    + rewrite map_app. apply NoDup_app. split; [exact Hnd |]. split.
      * intros x Hx Hin. cbn in Hin. apply list_elem_of_singleton in Hin. now subst.
      * cbn. apply NoDup_singleton.
    + apply Forall_app. split; [exact Hidx |]. constructor; [exact Hi | constructor].
Qed.

(** The whole run of the older program's [createGitRepo], from a valid
    configuration and a manifest that declares a non-empty name. *)
Lemma Legacy_createGitRepo_run env st contents props pkg c n :
  global_file st = Some contents -> parse contents = Some (JObj props) ->
  truthy (lookup_prop "email" props) = true ->
  truthy (lookup_prop "token" props) = true ->
  package_json env = Ok pkg -> name pkg = Some (String c n) ->
  let email := lookup_prop "email" props in
  let token := lookup_prop "token" props in
  let req := legacy_request (String c n) email token in
  let st1 := record (Http req) (record (Log LInfo "Setting up new git repo") st) in
  Legacy.createGitRepo env st =
    match http_response env req with
    | Err e => (Err e, st1)
    | Ok urlToken =>
        let text :=
          stringify (JObj (set_prop "urlToken" (JStr urlToken) props)) +:+ newline in
        match write_error env GlobalConfigFile with
        | Some e => (Err e, st1)
        | None =>
            let st2 :=
              record (Shell (legacy_add_remote token urlToken))
                (record (Log LInfo "Adding git remote")
                   (record (FileWrite GlobalConfigFile text)
                      (write GlobalConfigFile text st1))) in
            match shell_exit env (legacy_add_remote token urlToken) with
            | Some e => (Err e, st2)
            | None =>
                (Ok tt,
                 after st2 (map (Log LOk) (legacy_reports token urlToken)))
            end
        end
    end.
Proof.
  intros Hf Hp Hte Htt Hpkg Hname email token req st1.
  unfold Legacy.createGitRepo.
  unfold bind at 1. unfold Legacy.readConfig, Legacy.CONFIG_FILE_PATH.
  rewrite (read_config_file_parsed GlobalConfigFile st contents (JObj props) Hf Hp).
  unfold bind at 1. unfold lift at 1. unfold lacks_credentials. cbn [get_prop].
  rewrite Hte, Htt. cbn [negb].
  unfold bind at 1. unfold ret at 1.
  unfold bind at 1. unfold maybeUsePackageName at 1. rewrite Hpkg, Hname.
  unfold ret at 1. cbn [fmap option_fmap option_map].
  unfold bind at 1. unfold resolve_name. cbn [truthy]. unfold ret at 1.
  unfold Legacy.postCreateRepo, post_create_repo, send_create_repo, create_repo_request.
  cbn [get_prop].
  unfold bind, lift, cli_info, cli_ok, emit, ret. cbn [fst snd].
  fold email token. fold (legacy_request (String c n) email token). fold req. fold st1.
  destruct (http_response env req) as [urlToken|e]; [| reflexivity].
  cbn [Legacy.set_urlToken].
  unfold Legacy.saveConfig, Legacy.CONFIG_FILE_PATH, save_config_file, writeFileAsync.
  destruct (write_error env GlobalConfigFile); [reflexivity |].
  unfold Legacy.remote_url. cbn [get_prop].
  rewrite lookup_prop_set_prop by discriminate. fold token.
  unfold execAsync, bind, emit.
  change ("git remote add " +:+ "rnplay" +:+ " " +:+ "https://"
            +:+ val_to_string token +:+ ":@git.rnplay.org:jsierles/" +:+ urlToken +:+ ".git")
    with (legacy_add_remote token urlToken).
  destruct (shell_exit env (legacy_add_remote token urlToken)); [reflexivity |].
  unfold ret, after, record, legacy_reports. cbn. rewrite <- !app_assoc. reflexivity.
Qed.

(** In the older program, for a [~/.rnplay] that holds strings: once
    the service has answered and the file is written, create has put
    the url token into [~/.rnplay] beside what was there (a url token
    of an earlier create is replaced, every other property kept), and,
    whether the git command then succeeds or fails, [open] opens the
    page of that url token (it asks to create first if the service
    answered with an empty one). *)
Theorem Legacy_create_then_open env st contents props pkg c n urlToken :
  global_file st = Some contents -> parse contents = Some (JObj props) ->
  plain props ->
  truthy (lookup_prop "email" props) = true ->
  truthy (lookup_prop "token" props) = true ->
  package_json env = Ok pkg -> name pkg = Some (String c n) ->
  http_response env
    (legacy_request (String c n) (lookup_prop "email" props) (lookup_prop "token" props))
  = Ok urlToken ->
  write_error env GlobalConfigFile = None ->
  exists r st' props',
    Legacy.createGitRepo env st = (r, st') /\
    Legacy.readConfig st' = (Ok (JObj props'), st') /\
    lookup_prop "urlToken" props' = Some (JStr urlToken) /\
    (forall k, k <> "urlToken" -> lookup_prop k props' = lookup_prop k props) /\
    Legacy.openAppInBrowser st'
    = (Ok tt,
       record (if truthy (Some (JStr urlToken))
               then Browser (Legacy.RN_PLAY_APP_URL +:+ urlToken)
               else Log LError legacy_create_first) st').
Proof.
  intros Hf Hp Hplain Hte Htt Hpkg Hname Hresp Hw.
  pose proof (Legacy_createGitRepo_run env st contents props pkg c n
                Hf Hp Hte Htt Hpkg Hname) as Hrun.
  cbv zeta in Hrun. rewrite Hresp, Hw in Hrun.
  set (props' := set_prop "urlToken" (JStr urlToken) props) in *.
  set (text := stringify (JObj props') +:+ newline) in *.
  assert (Hparse : parse text = Some (JObj props')).
  { apply parse_plain. now apply plain_set_prop. }
  assert (Hurl : lookup_prop "urlToken" props' = Some (JStr urlToken))
    by now apply lookup_prop_set_prop_same.
  assert (Hopen : forall st', global_file st' = Some text ->
            Legacy.readConfig st' = (Ok (JObj props'), st') /\
            Legacy.openAppInBrowser st'
            = (Ok tt,
               record (if truthy (Some (JStr urlToken))
                       then Browser (Legacy.RN_PLAY_APP_URL +:+ urlToken)
                       else Log LError legacy_create_first) st')).
  { intros st' Hg. split.
    - now apply (read_config_file_parsed GlobalConfigFile st' text).
    - rewrite Legacy_openAppInBrowser_run, Hg, Hparse. cbn [get_prop].
      now rewrite Hurl. }
  destruct (shell_exit env _);
    (eexists _, _, props'; split; [exact Hrun |];
     match goal with
     | |- Legacy.readConfig ?s = _ /\ _ => destruct (Hopen s eq_refl) as [Hread Hop]
     end;
     split; [exact Hread |]; split; [exact Hurl |]; split; [| exact Hop];
     intros k Hk; now apply lookup_prop_set_prop).
Qed.

Lemma Legacy_create_then_open_witness :
  exists r st' props',
    Legacy.createGitRepo no_shell_env created_before = (r, st') /\
    Legacy.readConfig st' = (Ok (JObj props'), st') /\
    lookup_prop "urlToken" props' = Some (JStr "abc123") /\
    (forall k, k <> "urlToken" ->
       lookup_prop k props'
       = lookup_prop k [("token", JStr "t"); ("email", JStr "e"); ("urlToken", JStr "old")]) /\
    Legacy.openAppInBrowser st'
    = (Ok tt,
       record (if truthy (Some (JStr "abc123"))
               then Browser (Legacy.RN_PLAY_APP_URL +:+ "abc123")
               else Log LError legacy_create_first) st').
Proof.
  apply (Legacy_create_then_open no_shell_env created_before
           (stringify (JObj [("token", JStr "t"); ("email", JStr "e");
                             ("urlToken", JStr "old")]) +:+ newline)
           [("token", JStr "t"); ("email", JStr "e"); ("urlToken", JStr "old")]
           demo_package "d" "emo" "abc123");
    [reflexivity | vm_compute; reflexivity | | reflexivity | reflexivity | reflexivity
    | reflexivity | reflexivity | reflexivity].
  split; [| split].
  - repeat constructor; cbn; eauto.
  - apply (bool_decide_unpack _). vm_compute. exact I.
  - repeat constructor.
Defined.

(** ** The request *)







(** ** The split workflow: what it does in all, under every schedule *)

Lemma complete_step env i s project b :
  folders (config s) !! i = Some project -> branches s !! i = Some b ->
  config (complete env i s) = config s /\
  branches (complete env i s) = <[i := fst (step_of env s i project b)]> (branches s) /\
  store (complete env i s) = after (store s) (snd (step_of env s i project b)).
Proof.
  intros Hp Hb. split; [apply complete_config |].
  unfold complete, step_of. rewrite Hp, Hb.
  destruct b as [| |c req| |e].
  - destruct (shell_exit env _); cbn; now rewrite after_nil.
  - rewrite request_stage_events.
    destruct (requested env project _) as [[c req]|e]; cbn; auto.
  - destruct (http_response env req) as [token|e]; [| cbn; now rewrite after_nil].
    rewrite command_stage_events. unfold command_events.
    destruct (formatCommand token c) as [cmd|e]; [| cbn; now rewrite !after_nil].
    rewrite branches_on_done, store_on_done. cbn [branches store set_branch fst snd].
    rewrite after_after. cbn [app]. split; [reflexivity |].
    unfold done_message, last_index. reflexivity.
  - cbn. rewrite after_nil. split; [| reflexivity].
    symmetry. now apply list_insert_id.
  - cbn. rewrite after_nil. split; [| reflexivity].
    symmetry. now apply list_insert_id.
Qed.

Lemma complete_idle env i s :
  folders (config s) !! i = None \/ branches s !! i = None -> complete env i s = s.
Proof.
  unfold complete. intros [-> | ->]; [reflexivity |].
  now destruct (folders (config s) !! i).
Qed.

Lemma requests_request_events env project contents :
  requests (request_events env project contents)
  = match requested env project contents with
    | Ok (_, req) => [req]
    | Err _ => []
    end.
Proof.
  unfold request_events, requested. destruct (loaded contents) as [c|]; [| reflexivity].
  now destruct (create_repo_request (APP_ENDPOINT env) (JStr project) c).
Qed.

Lemma commands_request_events env project contents :
  commands (request_events env project contents) = [].
Proof.
  unfold request_events. destruct (loaded contents) as [c|]; [| reflexivity].
  now destruct (create_repo_request (APP_ENDPOINT env) (JStr project) c).
Qed.

Lemma provisioning_request_events env project contents :
  Forall provisioning (request_events env project contents).
Proof.
  unfold request_events. destruct (loaded contents) as [c|]; [| constructor].
  destruct (create_repo_request (APP_ENDPOINT env) (JStr project) c); repeat constructor.
Qed.

Lemma requests_app a b : requests (a ++ b) = requests a ++ requests b.
Proof. apply omap_app. Qed.

Lemma commands_app a b : commands (a ++ b) = commands a ++ commands b.
Proof. apply omap_app. Qed.

Lemma provisioned_update env st0 cfg s posted finished i b b' ev s' pnew fnew :
  provisioned env st0 cfg s posted finished ->
  branches s !! i = Some b ->
  config s' = config s ->
  branches s' = <[i := b']> (branches s) ->
  store s' = after (store s) ev ->
  Forall provisioning ev ->
  (forall c req, b' = Posting c req ->
     exists project, folders cfg !! i = Some project /\
                     requested env project (global_file st0) = Ok (c, req)) ->
  NoDup pnew -> (forall j, j ∈ pnew -> j = i /\ i ∉ posted) ->
  (i ∈ posted ++ pnew -> b' <> Copying /\ b' <> ReadingConfig) ->
  Forall2 (fun i req => request_of env (global_file st0) cfg i = Some req)
    pnew (requests ev) ->
  NoDup fnew -> (forall j, j ∈ fnew -> j = i /\ i ∉ finished) ->
  (i ∈ finished ++ fnew <-> b' = Done) ->
  Forall2 (fun i cmd => init_of env (global_file st0) cfg i = Some cmd)
    fnew (commands ev) ->
  provisioned env st0 cfg s' (posted ++ pnew) (finished ++ fnew).
Proof.
  intros (Hcfg & Hlen & (events & Hst & Hev) & Hpost & Hndp & Hndf & Hposted & Hfin
          & (reqs & Hreq & Hreqs) & (inits & Hcmd & Hinits))
    Hb Ec Eb Es Hprov Hposting Hnp Hp1 Hp2 Hp3 Hnf Hf1 Hf2 Hf3.
  assert (Hi : i < length (branches s)) by (eapply lookup_lt_Some; eauto).
  assert (Hnew : branches s' !! i = Some b')
    by (rewrite Eb; now apply list_lookup_insert_eq).
  assert (Hold : forall j, j <> i -> branches s' !! j = branches s !! j)
    by (intros j Hj; rewrite Eb; now apply list_lookup_insert_ne).
  split; [congruence |].
  split; [rewrite Eb, length_insert; exact Hlen |].
  split.
  { exists (events ++ ev). split; [now rewrite Es, Hst, after_after |].
    now apply Forall_app. }
  split.
  { intros j c req Hj. destruct (decide (j = i)) as [-> | Hne].
    - rewrite Hnew in Hj. injection Hj as ->. eauto.
    - rewrite Hold in Hj by exact Hne. eauto. }
  split.
  { apply NoDup_app. split; [exact Hndp |]. split; [| exact Hnp].
    intros x Hx Hx'. destruct (Hp1 x Hx') as [-> Hn]. contradiction. }
  split.
  { apply NoDup_app. split; [exact Hndf |]. split; [| exact Hnf].
    intros x Hx Hx'. destruct (Hf1 x Hx') as [-> Hn]. contradiction. }
  split.
  { intros j Hj. destruct (decide (j = i)) as [-> | Hne].
    - exists b'. split; [exact Hnew | now apply Hp2].
    - rewrite Hold by exact Hne. apply Hposted.
      apply elem_of_app in Hj as [Hj | Hj]; [exact Hj |].
      destruct (Hp1 j Hj) as [-> _]. congruence. }
  split.
  { intros j. destruct (decide (j = i)) as [-> | Hne].
    - rewrite Hnew, Hf2. split; [now intros -> | now intros [= ->]].
    - rewrite Hold by exact Hne. rewrite <- Hfin. rewrite elem_of_app.
      split; [| auto]. intros [Hj | Hj]; [exact Hj |].
      destruct (Hf1 j Hj) as [-> _]. congruence. }
  split.
  { exists (reqs ++ requests ev). split.
    - rewrite Es. cbn [after trace]. rewrite requests_app, Hreq. now rewrite app_assoc.
    - now apply Forall2_app. }
  exists (inits ++ commands ev). split.
  - rewrite Es. cbn [after trace]. rewrite commands_app, Hcmd. now rewrite <- !app_assoc.
  - now apply Forall2_app.
Qed.

Lemma provisioned_same env st0 cfg s posted finished s' :
  provisioned env st0 cfg s posted finished ->
  config s' = config s -> branches s' = branches s -> store s' = store s ->
  provisioned env st0 cfg s' posted finished.
Proof.
  unfold provisioned. intros H Ec Eb Es. now rewrite Ec, Eb, Es.
Qed.

Lemma provisioned_quiet env st0 cfg s posted finished i b b' ev s' :
  provisioned env st0 cfg s posted finished ->
  branches s !! i = Some b ->
  config s' = config s ->
  branches s' = <[i := b']> (branches s) ->
  store s' = after (store s) ev ->
  Forall provisioning ev -> requests ev = [] -> commands ev = [] ->
  (forall c req, b' <> Posting c req) ->
  (i ∈ posted -> b' <> Copying /\ b' <> ReadingConfig) ->
  b <> Done -> b' <> Done ->
  provisioned env st0 cfg s' posted finished.
Proof.
  intros Hinv Hb Ec Eb Es Hprov Hreq Hcmd Hposting Hp Hd Hd'.
  pose proof Hinv as (_ & _ & _ & _ & _ & _ & _ & Hfin & _ & _).
  rewrite <- (app_nil_r posted), <- (app_nil_r finished).
  eapply provisioned_update; try eassumption.
  - intros c req Hb'. exfalso. exact (Hposting c req Hb').
  - constructor.
  - intros j Hj. inversion Hj.
  - now rewrite app_nil_r.
  - rewrite Hreq. constructor.
  - constructor.
  - intros j Hj. inversion Hj.
  - rewrite app_nil_r, Hfin, Hb. split; [now intros [= ->] | now intros ->].
  - rewrite Hcmd. constructor.
Qed.

Lemma complete_provisioned env st0 cfg s posted finished i :
  provisioned env st0 cfg s posted finished ->
  exists posted' finished', provisioned env st0 cfg (complete env i s) posted' finished'.
Proof.
  intros Hinv.
  destruct (folders (config s) !! i) as [project|] eqn:Hp;
    [| exists posted, finished; rewrite complete_idle; auto].
  destruct (branches s !! i) as [b|] eqn:Hb;
    [| exists posted, finished; rewrite complete_idle; auto].
  destruct (complete_step env i s project b Hp Hb) as (Ec & Eb & Es).
  pose proof Hinv as (Hcfg & Hlen & (events & Hst & Hev) & Hpost & Hndp & Hndf & Hposted
                      & Hfin & _ & _).
  assert (Hg : global_file (store s) = global_file st0) by now rewrite Hst.
  assert (Hnp : i ∈ posted -> b <> Copying /\ b <> ReadingConfig).
  { intros Hi. destruct (Hposted i Hi) as (b0 & Hb0 & H1 & H2). now simplify_eq. }
  assert (Hnf : i ∈ finished <-> b = Done).
  { rewrite Hfin, Hb. split; [now intros [= ->] | now intros ->]. }
  rewrite Hcfg in Hp.
  destruct b as [| |c req| |e]; cbn [step_of fst snd] in Eb, Es.
  - (* the copy ends *)
    exists posted, finished.
    eapply provisioned_quiet; try eassumption; try reflexivity.
    + constructor.
    + intros c req. destruct (shell_exit env _); discriminate.
    + intros Hi. now apply Hnp in Hi as [? _].
    + discriminate.
    + destruct (shell_exit env _); discriminate.
  - (* the configuration is read, the request sent *)
    rewrite Hg in Eb, Es.
    destruct (requested env project (global_file st0)) as [[c req]|e] eqn:Hr.
    + exists (posted ++ [i]), (finished ++ []).
      eapply provisioned_update; try eassumption.
      * apply provisioning_request_events.
      * intros c' req' [= <- <-]. eauto.
      * apply NoDup_singleton.
      * intros j Hj. apply list_elem_of_singleton in Hj as ->. split; [reflexivity |].
        intros Hi. now apply Hnp in Hi as [_ ?].
      * intros _. split; discriminate.
      * rewrite requests_request_events, Hr. repeat constructor.
        unfold request_of. rewrite Hp. cbn. now rewrite Hr.
      * constructor.
      * intros j Hj. inversion Hj.
      * rewrite app_nil_r, Hnf. split; discriminate.
      * rewrite commands_request_events. constructor.
    + exists posted, finished.
      eapply provisioned_quiet; try eassumption.
      * apply provisioning_request_events.
      * now rewrite requests_request_events, Hr.
      * apply commands_request_events.
      * discriminate.
      * intros Hi. now apply Hnp in Hi as [_ ?].
      * discriminate.
      * discriminate.
  - (* the response arrives *)
    destruct (Hpost i c req Hb) as (project' & Hp' & Hr).
    assert (project' = project) as -> by congruence.
    destruct (http_response env req) as [token|e] eqn:Hresp.
    + destruct (formatCommand token c) as [cmd|e] eqn:Hcmd; cbn [fst snd] in Eb, Es.
      * exists (posted ++ []), (finished ++ [i]).
        eapply provisioned_update; try eassumption.
        -- repeat constructor.
        -- discriminate.
        -- constructor.
        -- intros j Hj. inversion Hj.
        -- intros _. split; discriminate.
        -- constructor.
        -- apply NoDup_singleton.
        -- intros j Hj. apply list_elem_of_singleton in Hj as ->. split; [reflexivity |].
           rewrite Hnf. discriminate.
        -- split; [reflexivity |]. intros _. apply elem_of_app. right.
           apply list_elem_of_here.
        -- repeat constructor. unfold init_of. rewrite Hp. cbn.
           now rewrite Hr, Hresp, Hcmd.
      * exists posted, finished.
        eapply provisioned_quiet; try eassumption; try reflexivity; try discriminate.
        -- constructor.
        -- intros _. split; discriminate.
    + cbn [fst snd] in Eb, Es. exists posted, finished.
      eapply provisioned_quiet; try eassumption; try reflexivity; try discriminate.
      * constructor.
      * intros _. split; discriminate.
  - exists posted, finished. eapply provisioned_same; [exact Hinv | exact Ec | |].
    + rewrite Eb. now apply list_insert_id.
    + now rewrite Es, after_nil.
  - exists posted, finished. eapply provisioned_same; [exact Hinv | exact Ec | |].
    + rewrite Eb. now apply list_insert_id.
    + now rewrite Es, after_nil.
Qed.

Lemma run_provisioned env st0 cfg schedule s posted finished :
  provisioned env st0 cfg s posted finished ->
  exists posted' finished', provisioned env st0 cfg (run env schedule s) posted' finished'.
Proof.
  revert s posted finished. induction schedule as [|i rest IH]; intros s posted finished H.
  - now exists posted, finished.
  - destruct (complete_provisioned env st0 cfg s posted finished i H) as (p & f & H').
    exact (IH _ p f H').
Qed.

Lemma provisioning_started env cfg projects :
  Forall provisioning (started env cfg projects).
Proof. induction projects as [|p rest IH]; cbn; repeat constructor. exact IH. Qed.

Lemma splitByConfig_provisioned env st s0 :
  splitByConfig env st = Running s0 -> provisioned env st (config s0) s0 [] [].
Proof.
  intros Hstart. destruct (splitByConfig_running env st s0 Hstart) as (Hb & Hst & _).
  assert (Hall : forall i b, branches s0 !! i = Some b -> b = Copying).
  { intros i b. rewrite Hb. change (map ?f ?l) with (f <$> l).
    rewrite list_lookup_fmap. destruct (folders (config s0) !! i); cbn; congruence. }
  split; [reflexivity |].
  split; [now rewrite Hb, length_map, folders_length |].
  split.
  { exists (started env (config s0) (folders (config s0))).
    split; [exact Hst | apply provisioning_started]. }
  split; [intros i c req Hi; now apply Hall in Hi |].
  split; [constructor |]. split; [constructor |].
  split; [intros i Hi; inversion Hi |].
  split.
  { intros i. split; [intros Hi; inversion Hi | intros Hi; now apply Hall in Hi]. }
  split.
  - exists []. split; [| constructor].
    rewrite Hst. cbn [trace]. now rewrite requests_app, requests_started.
  - exists []. split; [| constructor].
    rewrite Hst. cbn [trace]. now rewrite commands_app, commands_started, app_nil_r.
Qed.



(** Under every schedule: the copy command of each entry is run once,
    at the start, in key order; each chain sends at most one request,
    the one [postCreateRepo] builds for its project name, and runs at
    most one git command, [cd <target> && git init && git remote add
    ...], which it starts exactly when it runs to its end.  Nothing
    else is sent or run, and completing a chain once more changes
    nothing. *)
Theorem split_one_request_one_command env st s0 schedule :
  splitByConfig env st = Running s0 ->
  exists posted finished reqs inits,
    NoDup posted /\ NoDup finished /\
    (forall i, i ∈ finished <-> branches (run env schedule s0) !! i = Some Done) /\
    requests (trace (store (run env schedule s0))) = requests (trace st) ++ reqs /\
    Forall2 (fun i req => request_of env (global_file st) (config s0) i = Some req)
      posted reqs /\
    commands (trace (store (run env schedule s0)))
    = commands (trace st)
        ++ map (copy_command env (config s0)) (folders (config s0)) ++ inits /\
    Forall2 (fun i cmd => init_of env (global_file st) (config s0) i = Some cmd)
      finished inits.
Proof.
  intros Hstart.
  destruct (run_provisioned env st (config s0) schedule s0 [] []
              (splitByConfig_provisioned env st s0 Hstart))
    as (posted & finished & _ & _ & _ & _ & Hndp & Hndf & _ & Hfin
        & (reqs & Hreq & Hreqs) & (inits & Hcmd & Hinits)).
  exists posted, finished, reqs, inits. auto 10.
Qed.

Lemma split_one_request_one_command_witness :
  exists s0,
    splitByConfig chatty_env at_home = Running s0 /\
    exists posted finished reqs inits,
      NoDup posted /\ NoDup finished /\
      (forall i, i ∈ finished
                 <-> branches (run chatty_env [1; 0; 1; 1; 0; 0; 1] s0) !! i = Some Done) /\
      requests (trace (store (run chatty_env [1; 0; 1; 1; 0; 0; 1] s0)))
      = requests (trace at_home) ++ reqs /\
      Forall2 (fun i req => request_of chatty_env (global_file at_home) (config s0) i
                            = Some req) posted reqs /\
      commands (trace (store (run chatty_env [1; 0; 1; 1; 0; 0; 1] s0)))
      = commands (trace at_home)
          ++ map (copy_command chatty_env (config s0)) (folders (config s0)) ++ inits /\
      Forall2 (fun i cmd => init_of chatty_env (global_file at_home) (config s0) i
                            = Some cmd) finished inits.
Proof.
  eexists. split; [reflexivity |].
  match goal with
  | |- context [run _ _ ?s] =>
      apply (split_one_request_one_command chatty_env at_home s)
  end; reflexivity.
Defined.

Lemma step_of_advance env s i project b :
  fst (step_of env s i project b)
  = advance env (global_file (store s)) (config s) project b.
Proof.
  unfold step_of, advance. destruct b as [| |c req| |e]; try reflexivity.
  destruct (http_response env req) as [token|]; [| reflexivity].
  now destruct (formatCommand token c).
Qed.

Lemma run_own_steps env contents cfg project i schedule s b :
  config s = cfg -> global_file (store s) = contents ->
  folders cfg !! i = Some project -> branches s !! i = Some b ->
  branches (run env schedule s) !! i
  = Some (Nat.iter (completions i schedule) (advance env contents cfg project) b).
Proof.
  revert s b. induction schedule as [|j rest IH]; intros s b Hc Hg Hp Hb; [exact Hb |].
  cbn [run]. unfold completions. rewrite filter_cons.
  fold (completions i rest).
  assert (Hc' : config (complete env j s) = cfg) by now rewrite complete_config.
  assert (Hg' : global_file (store (complete env j s)) = contents)
    by now rewrite complete_global_file.
  destruct (decide (j = i)) as [-> | Hne].
  - cbn [length]. rewrite Nat.iter_succ_r.
    apply IH; try assumption.
    rewrite <- Hc in Hp.
    destruct (complete_step env i s project b Hp Hb) as (_ & Eb & _).
    rewrite Eb, step_of_advance, Hc, Hg.
    apply list_lookup_insert_eq. eapply lookup_lt_Some; eauto.
  - apply IH; try assumption.
    rewrite complete_frame by congruence. exact Hb.
Qed.

Lemma advance_ended env contents cfg project b n :
  b = Done \/ (exists e, b = Failed e) ->
  Nat.iter n (advance env contents cfg project) b = b.
Proof.
  intros H. induction n as [|n IH]; [reflexivity |].
  rewrite Nat.iter_succ, IH. now destruct H as [-> | [e ->]].
Qed.

Lemma advance_thrice env contents cfg project n :
  Nat.iter (3 + n) (advance env contents cfg project) Copying
  = match chain_result env contents cfg project with
    | Ok _ => Done
    | Err e => Failed e
    end.
Proof.
  rewrite Nat.add_comm, Nat.iter_add.
  set (final := Nat.iter 3 _ Copying).
  assert (Hfinal : final = match chain_result env contents cfg project with
                           | Ok _ => Done
                           | Err e => Failed e
                           end).
  { unfold final, chain_result. rewrite !Nat.iter_succ. cbn [Nat.iter nat_rect advance].
    destruct (shell_exit env _); cbn [advance]; [reflexivity |].
    destruct (requested env project contents) as [[c req]|]; cbn [advance];
      [| reflexivity].
    destruct (http_response env req) as [token|]; [| reflexivity].
    now destruct (formatCommand token c). }
  rewrite Hfinal. apply advance_ended.
  destruct (chain_result env contents cfg project); eauto.
Qed.



Lemma advance_early env contents cfg project n :
  n < 3 -> Nat.iter n (advance env contents cfg project) Copying <> Done.
Proof.
  intros Hn. destruct n as [|[|[|n]]]; [| | | lia]; cbn [Nat.iter nat_rect advance].
  - discriminate.
  - destruct (shell_exit env _); discriminate.
  - destruct (shell_exit env _); cbn [advance]; [discriminate |].
    destruct (requested env project contents) as [[c req]|]; discriminate.
Qed.

(** The promise of [splitByConfig], under every schedule: it is never
    rejected, and it is resolved exactly when [cli.info] returns a
    truthy value, three operations of the chain of the last entry have
    completed, and that chain, run on its own, fulfils.  The other
    chains have no part in it: they may all be still copying, or all
    rejected. *)
Theorem split_promise_state env st s0 project schedule :
  splitByConfig env st = Running s0 ->
  folders (config s0) !! last_index s0 = Some project ->
  promise (run env schedule s0)
  = if truthy (cli_info_result env)
       && bool_decide (3 <= completions (last_index s0) schedule)
       && fulfils (fst (chain env (config s0) project st))
    then Resolved else Pending.
Proof.
  intros Hstart Hp.
  assert (Hne : config s0 <> []).
  { intros Hnil. rewrite Hnil in Hp. discriminate. }
  destruct (splitByConfig_running env st s0 Hstart) as (Hb & Hst & Hpend).
  destruct (truthy (cli_info_result env)) eqn:Htruthy; cbn [andb].
  2:{ rewrite run_promise_falsy by exact Htruthy. now apply Hpend. }
  destruct (split_promise_cases env st s0 schedule Hstart Hne) as (Hres & Hrej & Hdone).
  assert (H0 : branches s0 !! last_index s0 = Some Copying).
  { rewrite Hb. apply lookup_map_const. eapply lookup_lt_Some; eauto. }
  assert (Hg : global_file (store s0) = global_file st) by now rewrite Hst.
  pose proof (run_own_steps env (global_file st) (config s0) project (last_index s0)
                schedule s0 Copying eq_refl Hg Hp H0) as Hrun.
  assert (Hpending : branches (run env schedule s0) !! last_index s0 <> Some Done ->
                     promise (run env schedule s0) = Pending).
  { intros Hnot. destruct (promise (run env schedule s0)) as [| |e];
      [reflexivity | exfalso | exfalso].
    - apply Hnot. now apply Hres.
    - now apply (Hrej e). }
  rewrite chain_chain_result.
  destruct (decide (3 <= completions (last_index s0) schedule)) as [Hn | Hn].
  - rewrite bool_decide_eq_true_2 by exact Hn. cbn [andb].
    replace (completions (last_index s0) schedule)
      with (3 + (completions (last_index s0) schedule - 3)) in Hrun by lia.
    rewrite advance_thrice in Hrun.
    destruct (chain_result env (global_file st) (config s0) project) as [[]|e]; cbn [fulfils].
    + now apply Hdone.
    + apply Hpending. rewrite Hrun. discriminate.
  - rewrite bool_decide_eq_false_2 by exact Hn. cbn [andb].
    apply Hpending. rewrite Hrun. intros [= Hd].
    apply (advance_early env (global_file st) (config s0) project
             (completions (last_index s0) schedule)); [lia | exact Hd].
Qed.

Lemma split_promise_state_witness :
  exists s0,
    splitByConfig chatty_env at_home = Running s0 /\
    promise (run chatty_env [1; 1; 1] s0)
    = if truthy (cli_info_result chatty_env)
         && bool_decide (3 <= completions (last_index s0) [1; 1; 1])
         && fulfils (fst (chain chatty_env (config s0) "app" at_home))
      then Resolved else Pending.
Proof.
  eexists. split; [reflexivity |].
  match goal with
  | |- context [run _ _ ?s] => apply (split_promise_state chatty_env at_home s "app")
  end; reflexivity.
Defined.

(** ** [getConfig] and [getAddRemoteCommand] *)


(** [getAddRemoteCommand], which split calls for each project, does for
    a name what create does for the same name, short of the local
    configuration: from a valid global configuration it prints the same
    line and sends the same request, and the command it returns when
    the service answers is the command create runs; but it writes
    nothing, so the url token is kept nowhere. *)
Theorem getAddRemoteCommand_like_create env st contents conf pkg c n email token :
  global_file st = Some contents -> parse contents = Some conf ->
  get_prop conf "email" = Ok email -> get_prop conf "token" = Ok token ->
  truthy email = true -> truthy token = true ->
  package_json env = Ok pkg -> name pkg = Some (String c n) ->
  let req := create_request env (String c n) email token in
  let st1 := after st [Log LInfo "Setting up new git repo"; Http req] in
  getAddRemoteCommand env (JStr (String c n)) st
  = (match http_response env req with
     | Ok urlToken => Ok (add_remote token urlToken)
     | Err e => Err e
     end, st1) /\
  requests (trace (snd (createGitRepo env st))) = requests (trace st1) /\
  forall urlToken,
    http_response env req = Ok urlToken -> write_error env LocalConfigFile = None ->
    commands (trace (snd (createGitRepo env st)))
    = commands (trace st) ++ [add_remote token urlToken] /\
    local_file (snd (createGitRepo env st)) = Some (local_config urlToken) /\
    local_file (snd (getAddRemoteCommand env (JStr (String c n)) st)) = local_file st.
Proof.
  intros Hf Hp He Ht Hte Htt Hpkg Hname req st1.
  assert (Hc : lacks_credentials conf = Ok false).
  { unfold lacks_credentials. now rewrite He, Hte, Ht, Htt. }
  assert (Hget : getAddRemoteCommand env (JStr (String c n)) st
                 = (match http_response env req with
                    | Ok urlToken => Ok (add_remote token urlToken)
                    | Err e => Err e
                    end, st1)).
  { unfold getAddRemoteCommand. unfold bind at 1.
    rewrite (getConfig_valid st contents conf Hf Hp Hc).
    unfold makeURLToken, postCreateRepo, post_create_repo, send_create_repo,
      create_repo_request, formatCommand, remote_url.
    rewrite He, Ht. unfold bind, lift, cli_info, emit, ret. cbn [fst snd].
    fold (create_request env (String c n) email token). fold req.
    unfold st1. store_simpl. destruct (http_response env req); reflexivity. }
  pose proof (createGitRepo_run env st contents conf pkg c n email token
                Hf Hp He Ht Hte Htt Hpkg Hname) as Hrun.
  cbv zeta in Hrun. fold req in Hrun.
  assert (Est : st1 = record (Http req) (record (Log LInfo "Setting up new git repo") st))
    by (unfold st1; now store_simpl).
  split; [exact Hget |]. split.
  - rewrite Hrun, Est.
    destruct (http_response env req); [| reflexivity].
    destruct (write_error env LocalConfigFile); [reflexivity |].
    destruct (shell_exit env _); cbn [snd]; now trace_simpl.
  - intros urlToken Hresp Hw. rewrite Hget, Hrun, Hresp, Hw.
    destruct (shell_exit env _); cbn [snd]; (split; [now trace_simpl | split; reflexivity]).
Qed.

Lemma getAddRemoteCommand_like_create_witness :
  let req := create_request fair_env "demo" (Some (JStr "e")) (Some (JStr "t")) in
  let st1 := after signed_in [Log LInfo "Setting up new git repo"; Http req] in
  getAddRemoteCommand fair_env (JStr "demo") signed_in
  = (match http_response fair_env req with
     | Ok urlToken => Ok (add_remote (Some (JStr "t")) urlToken)
     | Err e => Err e
     end, st1) /\
  requests (trace (snd (createGitRepo fair_env signed_in))) = requests (trace st1) /\
  forall urlToken,
    http_response fair_env req = Ok urlToken ->
    write_error fair_env LocalConfigFile = None ->
    commands (trace (snd (createGitRepo fair_env signed_in)))
    = commands (trace signed_in) ++ [add_remote (Some (JStr "t")) urlToken] /\
    local_file (snd (createGitRepo fair_env signed_in)) = Some (local_config urlToken) /\
    local_file (snd (getAddRemoteCommand fair_env (JStr "demo") signed_in))
    = local_file signed_in.
Proof.
  apply (getAddRemoteCommand_like_create fair_env signed_in
           (stringify (credentials "t" "e") +:+ newline) (credentials "t" "e")
           demo_package "d" "emo" (Some (JStr "e")) (Some (JStr "t")));
    vm_compute; reflexivity.
Defined.

(** ** Whole runs *)

Lemma main_run action st :
  main action st
  = (Ok tt,
     after (snd (action st))
       (match fst (action st) with Ok _ => [] | Err e => oops e end ++ [Exit])).
Proof.
  unfold main, catch, bind, cli_error, cli_info, emit, oops.
  destruct (action st) as [[[]|e] st']; cbn [fst snd]; now store_simpl.
Qed.


(** ** Split without projects to split *)

(** Split starts a chain only for a manifest with an [rnplay] block.
    When the block is missing it prints the fatal line, with which the
    [cli] package ends the process, and nothing else: no copy, no
    request.  When the manifest cannot be loaded, the promise is
    rejected with the error of loading it, no chain exists, and no
    completion changes anything. *)
Theorem split_without_block env st :
  (forall pkg, package_json env = Ok pkg -> rnplay pkg = None ->
     splitByConfig env st
     = Terminated
         (after st
            [Log LFatal "No rnplay config found. Make sure you have rnplay config in your package.json";
             Exit])) /\
  (forall e, package_json env = Err e ->
     exists s0,
       splitByConfig env st = Running s0 /\
       promise s0 = Rejected e /\ store s0 = st /\
       forall schedule, run env schedule s0 = s0).
Proof.
  unfold splitByConfig, processRNPlayConfig, getPackageConfig. split.
  - intros pkg -> ->. now store_simpl.
  - intros e ->. eexists. split; [reflexivity |]. repeat split.
    intros schedule. induction schedule as [|i rest IH]; [reflexivity |].
    cbn [run]. now rewrite complete_idle by (left; destruct i; reflexivity).
Qed.

Lemma split_without_block_witness :
  splitByConfig no_block_env signed_in
  = Terminated
      (after signed_in
         [Log LFatal "No rnplay config found. Make sure you have rnplay config in your package.json";
          Exit]) /\
  exists s0,
    splitByConfig no_manifest_env signed_in = Running s0 /\
    promise s0 = Rejected (Error "Cannot find module 'package.json'") /\
    store s0 = signed_in /\
    forall schedule, run no_manifest_env schedule s0 = s0.
Proof.
  split.
  - apply (proj1 (split_without_block no_block_env signed_in) (mkPackage (Some "demo") None));
      reflexivity.
  - apply (proj2 (split_without_block no_manifest_env signed_in)). reflexivity.
Defined.

(** ** The name of the application *)

(** When the manifest gives no name, or an empty one, or cannot be
    read, create asks for the name and sends what the user types as it
    is, an empty answer included; when the prompt is aborted, create is
    rejected with the error of the prompt before any request is sent. *)
Theorem create_with_typed_name env st contents conf email token :
  global_file st = Some contents -> parse contents = Some conf ->
  get_prop conf "email" = Ok email -> get_prop conf "token" = Ok token ->
  truthy email = true -> truthy token = true ->
  (forall pkg, package_json env = Ok pkg -> name pkg = None \/ name pkg = Some "") ->
  match stdin_name env with
  | Ok typed =>
      requests (trace (snd (createGitRepo env st)))
      = requests (trace st) ++ [create_request env typed email token]
  | Err e => createGitRepo env st = (Err e, st)
  end.
Proof.
  intros Hf Hp He Ht Hte Htt Hname.
  assert (Hc : lacks_credentials conf = Ok false).
  { unfold lacks_credentials. now rewrite He, Hte, Ht, Htt. }
  assert (Hask : forall k : json -> M unit,
            (n <- maybeUsePackageName env;; n <- resolve_name env n;; k n) st
            = match stdin_name env with
              | Ok typed => k (JStr typed) st
              | Err e => (Err e, st)
              end).
  { intros k. unfold maybeUsePackageName, resolve_name, readRepoNameFromCLI, bind, lift, ret.
    destruct (package_json env) as [pkg|] eqn:Hpkg.
    - destruct (Hname pkg eq_refl) as [-> | ->]; cbn;
        now destruct (stdin_name env).
    - now destruct (stdin_name env). }
  destruct (createGitRepo env st) as [r st'] eqn:Hrun. revert Hrun.
  unfold createGitRepo. unfold bind at 1.
  rewrite (getConfig_valid st contents conf Hf Hp Hc).
  rewrite Hask. destruct (stdin_name env) as [typed|e]; [| now intros [= <- <-]].
  unfold makeURLToken, postCreateRepo, post_create_repo, send_create_repo,
    create_repo_request, formatCommand, remote_url, saveLocalConfig,
    save_config_file, writeFileAsync, execAsync, undeclared, cli_info,
    bind, lift, emit, ret, throw.
  rewrite He, Ht. cbn [fst snd].
  fold (create_request env typed email token).
  destruct (http_response env _); [destruct (write_error env LocalConfigFile) |];
    [| destruct (shell_exit env _) |];
    intros [= <- <-]; cbn [snd]; unfold record, write;
    cbn [trace global_file local_file]; unfold requests; rewrite !omap_app; cbn;
    now rewrite ?app_nil_r.
Qed.

Lemma create_with_typed_name_witness :
  requests (trace (snd (createGitRepo nameless_env signed_in)))
  = requests (trace signed_in)
      ++ [create_request nameless_env "typed" (Some (JStr "e")) (Some (JStr "t"))].
Proof.
  apply (create_with_typed_name nameless_env signed_in
           (stringify (credentials "t" "e") +:+ newline) (credentials "t" "e")
           (Some (JStr "e")) (Some (JStr "t")));
    try (vm_compute; reflexivity).
  intros pkg [= <-]. now left.
Defined.

(** ** A session: authenticate, create, open *)

Lemma plain_credentials token email : plain [("token", JStr token); ("email", JStr email)].
Proof.
  split; [| split].
  - repeat constructor; cbn; eauto.
  - apply (bool_decide_unpack _). vm_compute. exact I.
  - repeat constructor.
Qed.

(** The older program, run three times in a row under [cli.main], to
    authenticate, to create and to open, with both prompts answered by
    non-empty strings, a manifest that declares a non-empty name, a
    service that answers with a non-empty url token, and a file system
    and a shell that succeed: each run ends with [process.exit], and
    together they save the credentials, send one request, save the url
    token beside the credentials, add the git remote, print the four
    success lines and open the page of the url token. *)
Theorem Legacy_session env st token email pkg c n urlToken :
  stdin_token env = Ok token -> stdin_email env = Ok email ->
  truthy (Some (JStr token)) = true -> truthy (Some (JStr email)) = true ->
  write_error env GlobalConfigFile = None ->
  package_json env = Ok pkg -> name pkg = Some (String c n) ->
  http_response env
    (legacy_request (String c n) (Some (JStr email)) (Some (JStr token))) = Ok urlToken ->
  truthy (Some (JStr urlToken)) = true ->
  shell_exit env (legacy_add_remote (Some (JStr token)) urlToken) = None ->
  exists st1 st2 st3,
    main (Legacy.createConfig env) st = (Ok tt, st1) /\
    main (Legacy.createGitRepo env) st1 = (Ok tt, st2) /\
    main Legacy.openAppInBrowser st2 = (Ok tt, st3) /\
    global_file st3
    = Some (stringify (JObj [("token", JStr token); ("email", JStr email);
                             ("urlToken", JStr urlToken)]) +:+ newline) /\
    trace st3
    = trace st
      ++ [FileWrite GlobalConfigFile (saved_config token email);
          Log LOk "Saved config to ~/.rnplay";
          Exit]
      ++ legacy_create_steps
           (legacy_request (String c n) (Some (JStr email)) (Some (JStr token)))
           (stringify (JObj [("token", JStr token); ("email", JStr email);
                             ("urlToken", JStr urlToken)]) +:+ newline)
           (git_url_shape token "rnplay.org:jsierles" urlToken)
      ++ [Exit;
          Browser (Legacy.RN_PLAY_APP_URL +:+ urlToken);
          Exit].
Proof.
  intros Ht He Htt Hte Hw Hpkg Hname Hresp Hu Hsh.
  (* authenticate *)
  pose proof (Legacy_createConfig_run env st) as H1. rewrite Ht, He, Hw in H1.
  set (st1' := record (Log LOk "Saved config to ~/.rnplay") _) in H1.
  pose proof (main_run (Legacy.createConfig env) st) as M1. rewrite H1 in M1.
  cbn [fst snd app] in M1.
  set (st1 := after st1' [Exit]) in M1.
  (* create *)
  assert (Hg1 : global_file st1 = Some (saved_config token email)) by reflexivity.
  pose proof (Legacy_createGitRepo_run env st1 (saved_config token email)
                [("token", JStr token); ("email", JStr email)] pkg c n
                Hg1 (parse_credentials token email) Hte Htt Hpkg Hname) as H2.
  cbv zeta in H2.
  change (lookup_prop "email" [("token", JStr token); ("email", JStr email)])
    with (Some (JStr email)) in H2.
  change (lookup_prop "token" [("token", JStr token); ("email", JStr email)])
    with (Some (JStr token)) in H2.
  rewrite Hresp, Hw, Hsh in H2.
  change (set_prop "urlToken" (JStr urlToken) [("token", JStr token); ("email", JStr email)])
    with [("token", JStr token); ("email", JStr email); ("urlToken", JStr urlToken)] in H2.
  set (text := stringify (JObj [("token", JStr token); ("email", JStr email);
                                ("urlToken", JStr urlToken)]) +:+ newline) in *.
  set (st2' := after _ (map (Log LOk) _)) in H2.
  pose proof (main_run (Legacy.createGitRepo env) st1) as M2. rewrite H2 in M2.
  cbn [fst snd app] in M2.
  set (st2 := after st2' [Exit]) in M2.
  (* open *)
  assert (Hg2 : global_file st2 = Some text) by reflexivity.
  assert (Hparse : parse text = Some (JObj [("token", JStr token); ("email", JStr email);
                                            ("urlToken", JStr urlToken)])).
  { apply (parse_plain [("token", JStr token); ("email", JStr email);
                        ("urlToken", JStr urlToken)]).
    exact (plain_set_prop "urlToken" urlToken _ eq_refl (plain_credentials token email)). }
  pose proof (Legacy_openAppInBrowser_run st2) as H3.
  rewrite Hg2, Hparse in H3. cbn [get_prop] in H3.
  change (lookup_prop "urlToken" _) with (Some (JStr urlToken)) in H3.
  rewrite Hu in H3.
  cbn [val_to_string to_string] in H3.
  pose proof (main_run Legacy.openAppInBrowser st2) as M3. rewrite H3 in M3.
  cbn [fst snd app] in M3.
  eexists st1, st2, _. split; [exact M1 |]. split; [exact M2 |]. split; [exact M3 |].
  split; [reflexivity |].
  cbn [trace after record write st2 st2' st1 st1' legacy_create_steps legacy_reports map
         val_to_string to_string].
  rewrite <- !app_assoc. reflexivity.
Qed.

Lemma Legacy_session_witness :
  exists st1 st2 st3,
    main (Legacy.createConfig fair_env) empty_store = (Ok tt, st1) /\
    main (Legacy.createGitRepo fair_env) st1 = (Ok tt, st2) /\
    main Legacy.openAppInBrowser st2 = (Ok tt, st3) /\
    global_file st3
    = Some (stringify (JObj [("token", JStr "t"); ("email", JStr "e");
                             ("urlToken", JStr "abc123")]) +:+ newline) /\
    trace st3
    = trace empty_store
      ++ [FileWrite GlobalConfigFile (saved_config "t" "e");
          Log LOk "Saved config to ~/.rnplay";
          Exit]
      ++ legacy_create_steps
           (legacy_request "demo" (Some (JStr "e")) (Some (JStr "t")))
           (stringify (JObj [("token", JStr "t"); ("email", JStr "e");
                             ("urlToken", JStr "abc123")]) +:+ newline)
           (git_url_shape "t" "rnplay.org:jsierles" "abc123")
      ++ [Exit;
          Browser (Legacy.RN_PLAY_APP_URL +:+ "abc123");
          Exit].
Proof.
  apply (Legacy_session fair_env empty_store "t" "e" demo_package "d" "emo" "abc123");
    reflexivity.
Defined.

(** The rewrite, run three times in a row under [cli.main], to
    authenticate, to create and to open, with both prompts answered by
    non-empty strings, a manifest that declares a non-empty name, a
    service that answers with a non-empty url token and a file system
    that succeeds: each run ends with [process.exit]; together they
    save the credentials, send one request, save the url token to the
    local file, start the git command and open the page of the url
    token.  But the create run always prints the error report and never
    a success line: with the error of the git command when it fails,
    and with [remoteName is not defined] when it succeeds. *)
Theorem Rewrite_session env st token email pkg c n urlToken :
  stdin_token env = Ok token -> stdin_email env = Ok email ->
  truthy (Some (JStr token)) = true -> truthy (Some (JStr email)) = true ->
  write_error env GlobalConfigFile = None -> write_error env LocalConfigFile = None ->
  package_json env = Ok pkg -> name pkg = Some (String c n) ->
  http_response env
    (create_request env (String c n) (Some (JStr email)) (Some (JStr token))) = Ok urlToken ->
  truthy (Some (JStr urlToken)) = true ->
  exists st1 st2 st3,
    main (createConfig env) st = (Ok tt, st1) /\
    main (createGitRepo env) st1 = (Ok tt, st2) /\
    main (openAppInBrowser env) st2 = (Ok tt, st3) /\
    global_file st3 = Some (saved_config token email) /\
    local_file st3 = Some (local_config urlToken) /\
    trace st3
    = trace st
      ++ [FileWrite GlobalConfigFile (saved_config token email);
          Log LOk "Saved config to ~/.rnplay";
          Exit]
      ++ create_steps
           (create_request env (String c n) (Some (JStr email)) (Some (JStr token)))
           urlToken (add_remote (Some (JStr token)) urlToken)
      ++ oops match shell_exit env (add_remote (Some (JStr token)) urlToken) with
              | Some e => e
              | None => ReferenceError "remoteName is not defined"
              end
      ++ [Exit;
          Browser (RNPLAY_APP_URL env +:+ urlToken);
          Exit].
Proof.
  intros Ht He Htt Hte Hw Hwl Hpkg Hname Hresp Hu.
  (* authenticate *)
  assert (H1 : createConfig env st
               = (Ok tt,
                  record (Log LOk "Saved config to ~/.rnplay")
                    (record (FileWrite GlobalConfigFile (saved_config token email))
                       (write GlobalConfigFile (saved_config token email) st)))).
  { unfold createConfig, saveConfig, save_config_file, writeFileAsync,
      readTokenFromCLI, readEmailFromCLI, cli_ok, bind, lift, emit.
    now rewrite Ht, He, Hw. }
  set (st1' := record (Log LOk "Saved config to ~/.rnplay") _) in H1.
  pose proof (main_run (createConfig env) st) as M1. rewrite H1 in M1.
  cbn [fst snd app] in M1.
  set (st1 := after st1' [Exit]) in M1.
  (* create *)
  assert (Hg1 : global_file st1 = Some (saved_config token email)) by reflexivity.
  pose proof (createGitRepo_run env st1 (saved_config token email)
                (credentials token email) pkg c n (Some (JStr email)) (Some (JStr token))
                Hg1 (parse_credentials token email) eq_refl eq_refl Hte Htt Hpkg Hname)
    as H2.
  cbv zeta in H2. rewrite Hresp, Hwl in H2.
  set (st2' := record (Shell (add_remote (Some (JStr token)) urlToken)) _) in H2.
  set (e := match shell_exit env (add_remote (Some (JStr token)) urlToken) with
            | Some e => e
            | None => ReferenceError "remoteName is not defined"
            end).
  assert (H2' : createGitRepo env st1 = (Err e, st2')).
  { rewrite H2. unfold e. now destruct (shell_exit env _). }
  pose proof (main_run (createGitRepo env) st1) as M2. rewrite H2' in M2.
  cbn [fst snd] in M2.
  set (st2 := after st2' (oops e ++ [Exit])) in M2.
  (* open *)
  assert (H3 : openAppInBrowser env st2
               = (Ok tt, record (Browser (RNPLAY_APP_URL env +:+ urlToken)) st2)).
  { assert (Hl : local_file st2 = Some (local_config urlToken)) by reflexivity.
    rewrite openAppInBrowser_opening. unfold opening.
    rewrite Hl, parse_local_config. cbn [get_prop].
    change (lookup_prop "urlToken" _) with (Some (JStr urlToken)). now rewrite Hu. }
  pose proof (main_run (openAppInBrowser env) st2) as M3. rewrite H3 in M3.
  cbn [fst snd app] in M3.
  eexists st1, st2, _. split; [exact M1 |]. split; [exact M2 |]. split; [exact M3 |].
  split; [reflexivity |]. split; [reflexivity |].
  cbn [trace after record write st2 st2' st1 st1' create_steps oops].
  rewrite <- !app_assoc. reflexivity.
Qed.

Lemma Rewrite_session_witness :
  exists st1 st2 st3,
    main (createConfig fair_env) empty_store = (Ok tt, st1) /\
    main (createGitRepo fair_env) st1 = (Ok tt, st2) /\
    main (openAppInBrowser fair_env) st2 = (Ok tt, st3) /\
    global_file st3 = Some (saved_config "t" "e") /\
    local_file st3 = Some (local_config "abc123") /\
    trace st3
    = trace empty_store
      ++ [FileWrite GlobalConfigFile (saved_config "t" "e");
          Log LOk "Saved config to ~/.rnplay";
          Exit]
      ++ create_steps
           (create_request fair_env "demo" (Some (JStr "e")) (Some (JStr "t")))
           "abc123" (add_remote (Some (JStr "t")) "abc123")
      ++ oops match shell_exit fair_env (add_remote (Some (JStr "t")) "abc123") with
              | Some e => e
              | None => ReferenceError "remoteName is not defined"
              end
      ++ [Exit;
          Browser (RNPLAY_APP_URL fair_env +:+ "abc123");
          Exit].
Proof.
  apply (Rewrite_session fair_env empty_store "t" "e" demo_package "d" "emo" "abc123");
    reflexivity.
Defined.
